(** * Orbit fusion: a shallow embedding of the fusion engine

    The development follows the Python sources
    - [backend/services/analysis.py]           (module [Analysis]),
    - [backend/services/gee_fusion_service.py] (modules [GeeFusion], [GeoWindow]),
    - [backend/services/cache_service.py]      (module [Cache]).

    Numeric conventions.  A [float64] is modelled by the value it denotes:
    NaN, a signed infinity, or a rational in lowest terms (so that equal
    values are equal terms).  Special values follow IEEE-754
    as numpy applies them (no exception on division by zero, NaN absorbs,
    comparisons with NaN are false).  Rounding of finite results and the
    sign of zero are not modelled: finite arithmetic is exact and a zero
    divisor counts as [+0].  binary64 agrees with this on integers up to
    [2 ^ 53] and to the last digit on other values below its overflow
    threshold; the statements that read an integer pixel, or that say a
    call returns, carry the bounds under which the two agree. *)

From Stdlib Require Import ZArith QArith Qcanon Qround Qabs Qminmax List String Bool Lia Lqa.
From Stdlib Require Import Reals Lra Sorted Permutation.
From stdpp Require Import base gmap strings.

Import ListNotations.
Local Open Scope Q_scope.

(** Linear arithmetic over [Q] and over [R]. *)
Ltac qlra := Lqa.lra.
Ltac rlra := Lra.lra.

(* ===================================================================== *)
(** * Python exceptions and the error monad                               *)
(* ===================================================================== *)

Inductive exn : Type :=
| ValueError (msg : string)
| IndexError (msg : string)
| ZeroDivisionError
| OverflowError.

Inductive result (A : Type) : Type :=
| Ok (a : A)
| Raise (e : exn).

Arguments Ok {A} a.
Arguments Raise {A} e.

Definition bind {A B : Type} (m : result A) (k : A -> result B) : result B :=
  match m with
  | Ok a => k a
  | Raise e => Raise e
  end.

Notation "'do' x <- m ; k" := (bind m (fun x => k))
  (at level 10, x name, m at level 100, k at level 200).

(* ===================================================================== *)
(** * numpy: float64 scalars                                              *)
(* ===================================================================== *)

Module Numpy.
Local Open Scope Qc_scope.

Inductive float64 : Type :=
| NaN
| Infty (neg : bool)
| Finite (q : Qc).

(** The float64 denoting a rational literal. *)
Definition fin (q : Q) : float64 := Finite (Q2Qc q).

Definition fzero : float64 := Finite 0.
Definition fone : float64 := Finite 1.
Definition of_Z (z : Z) : float64 := fin (inject_Z z).

Definition isnan (x : float64) : bool :=
  match x with NaN => true | _ => false end.

Definition fopp (x : float64) : float64 :=
  match x with
  | NaN => NaN
  | Infty s => Infty (negb s)
  | Finite q => Finite (- q)
  end.

Definition fadd (x y : float64) : float64 :=
  match x, y with
  | NaN, _ | _, NaN => NaN
  | Infty s, Infty t => if Bool.eqb s t then Infty s else NaN
  | Infty s, Finite _ => Infty s
  | Finite _, Infty t => Infty t
  | Finite a, Finite b => Finite (a + b)
  end.

Definition fsub (x y : float64) : float64 := fadd x (fopp y).

(** Sign of the infinity produced by [Infty s * q] or [Infty s / q]. *)
Definition scale_inf (s : bool) (q : Qc) : float64 :=
  match q ?= 0 with
  | Eq => NaN
  | Gt => Infty s
  | Lt => Infty (negb s)
  end.

Definition fmul (x y : float64) : float64 :=
  match x, y with
  | NaN, _ | _, NaN => NaN
  | Infty s, Infty t => Infty (xorb s t)
  | Infty s, Finite q => scale_inf s q
  | Finite q, Infty t => scale_inf t q
  | Finite a, Finite b => Finite (a * b)
  end.

(** numpy true division under [np.errstate(divide='ignore', invalid='ignore')]
    (and numpy's default, which only warns): never raises. *)
Definition fdiv (x y : float64) : float64 :=
  match x, y with
  | NaN, _ | _, NaN => NaN
  | Infty _, Infty _ => NaN
  | Infty s, Finite b =>
      match b ?= 0 with Lt => Infty (negb s) | _ => Infty s end
  | Finite _, Infty _ => Finite 0
  | Finite a, Finite b =>
      if Qeq_bool b 0 then
        match a ?= 0 with
        | Eq => NaN
        | Gt => Infty false
        | Lt => Infty true
        end
      else Finite (a / b)
  end.

(** Comparisons; every comparison with NaN is false, except [!=]. *)
Definition feqb (x y : float64) : bool :=
  match x, y with
  | Finite a, Finite b => Qeq_bool a b
  | Infty s, Infty t => Bool.eqb s t
  | _, _ => false
  end.

Definition fneb (x y : float64) : bool := negb (feqb x y).

Definition fltb (x y : float64) : bool :=
  match x, y with
  | NaN, _ | _, NaN => false
  | Infty s, Infty t => s && negb t
  | Infty s, Finite _ => s
  | Finite _, Infty t => negb t
  | Finite a, Finite b => match a ?= b with Lt => true | _ => false end
  end.

Definition fleb (x y : float64) : bool := fltb x y || feqb x y.
Definition fgtb (x y : float64) : bool := fltb y x.

(** [np.maximum] / [np.minimum]: NaN propagates. *)
Definition maximum (x y : float64) : float64 :=
  match x, y with
  | NaN, _ | _, NaN => NaN
  | _, _ => if fltb x y then y else x
  end.

Definition minimum (x y : float64) : float64 :=
  match x, y with
  | NaN, _ | _, NaN => NaN
  | _, _ => if fltb y x then y else x
  end.

(** [np.clip(x, lo, hi)] is [minimum(maximum(x, lo), hi)]. *)
Definition clip1 (lo hi x : float64) : float64 := minimum (maximum x lo) hi.

(** [np.nan_to_num(x, nan=, posinf=, neginf=)] on one scalar. *)
Definition nan_to_num1 (nan posinf neginf x : float64) : float64 :=
  match x with
  | NaN => nan
  | Infty false => posinf
  | Infty true => neginf
  | Finite _ => x
  end.

(** ** dtypes and casts *)

Inductive dtype : Type := int64 | float64_t.

(** [np.result_type] restricted to the two dtypes in use. *)
Definition promote (a b : dtype) : dtype :=
  match a, b with
  | int64, int64 => int64
  | _, _ => float64_t
  end.

Definition int64_min : Z := - 2 ^ 63.
Definition int64_max : Z := 2 ^ 63 - 1.

(** Truncation toward zero, as C's (and numpy's) float-to-integer cast. *)
Definition Qtrunc (q : Q) : Z := Z.quot (Qnum q) (Zpos (Qden q)).

(** [x.astype(int)] on one scalar.  NaN, infinities and out-of-range values
    have no defined result; numpy on x86-64 yields [INT64_MIN]. *)
Definition to_int64 (x : float64) : Z :=
  match x with
  | Finite q =>
      let z := Qtrunc (this q) in
      if (int64_min <=? z)%Z && (z <=? int64_max)%Z then z else int64_min
  | _ => int64_min
  end.

(** The array-level conversion [a.astype(d)] on one element; it never
    raises. *)
Definition cast (d : dtype) (x : float64) : float64 :=
  match d with
  | float64_t => x
  | int64 => of_Z (to_int64 x)
  end.

(** Item assignment [result[i, j] = x] of a float64 scalar into an array
    of dtype [d].  Unlike [astype], the store into an integer array goes
    through Python's [int(x)]: NaN raises [ValueError], an infinity or a
    value outside int64 raises [OverflowError]. *)
Definition setitem (d : dtype) (x : float64) : result float64 :=
  match d with
  | float64_t => Ok x
  | int64 =>
      match x with
      | NaN => Raise (ValueError "cannot convert float NaN to integer")
      | Infty _ => Raise OverflowError
      | Finite q =>
          let z := Qtrunc (this q) in
          if (int64_min <=? z)%Z && (z <=? int64_max)%Z then Ok (of_Z z)
          else Raise OverflowError
      end
  end.

(** ** 2-D arrays

    An [ndarray] is its dtype, its shape and its element function; only
    the elements inside the shape are meaningful.  An int64 array stores
    its integers through [of_Z]. *)

Record ndarray : Type := mk_ndarray {
  dt : dtype;
  shape : nat * nat;
  item : nat -> nat -> float64
}.

Record boolarray : Type := mk_boolarray {
  bshape : nat * nat;
  bitem : nat -> nat -> bool
}.

Definition shape_eqb (s t : nat * nat) : bool :=
  Nat.eqb (fst s) (fst t) && Nat.eqb (snd s) (snd t).

Definition astype (d : dtype) (a : ndarray) : ndarray :=
  mk_ndarray d (shape a) (fun i j => cast d (item a i j)).

(** Broadcasting of one axis: equal lengths, or one of them is 1. *)
Definition broadcast_dim (n m : nat) : option nat :=
  if Nat.eqb n m then Some n
  else if Nat.eqb n 1 then Some m
  else if Nat.eqb m 1 then Some n
  else None.

Definition broadcast_shape (s t : nat * nat) : result (nat * nat) :=
  match broadcast_dim (fst s) (fst t), broadcast_dim (snd s) (snd t) with
  | Some h, Some w => Ok (h, w)
  | _, _ => Raise (ValueError "operands could not be broadcast together")
  end.

(** Index into an axis of length [n] from a broadcast result. *)
Definition bidx (n i : nat) : nat := if Nat.eqb n 1 then 0%nat else i.

Definition bget (a : ndarray) (i j : nat) : float64 :=
  item a (bidx (fst (shape a)) i) (bidx (snd (shape a)) j).

Definition bbget (c : boolarray) (i j : nat) : bool :=
  bitem c (bidx (fst (bshape c)) i) (bidx (snd (bshape c)) j).

(** Elementwise binary operator on float64 arrays. *)
Definition map2 (f : float64 -> float64 -> float64) (a b : ndarray)
  : result ndarray :=
  do s <- broadcast_shape (shape a) (shape b);
  Ok (mk_ndarray float64_t s (fun i j => f (bget a i j) (bget b i j))).

Definition map1 (f : float64 -> float64) (a : ndarray) : ndarray :=
  mk_ndarray (dt a) (shape a) (fun i j => f (item a i j)).

Definition np_isnan (a : ndarray) : boolarray :=
  mk_boolarray (shape a) (fun i j => isnan (item a i j)).

Definition np_not (c : boolarray) : boolarray :=
  mk_boolarray (bshape c) (fun i j => negb (bitem c i j)).

Definition np_nan_to_num (nan posinf neginf : float64) (a : ndarray) : ndarray :=
  map1 (nan_to_num1 nan posinf neginf) a.

Definition np_clip (a : ndarray) (lo hi : float64) : ndarray :=
  map1 (clip1 lo hi) a.

(** [np.where(c, a, b)] with three array arguments. *)
Definition np_where (c : boolarray) (a b : ndarray) : result ndarray :=
  do s1 <- broadcast_shape (bshape c) (shape a);
  do s <- broadcast_shape s1 (shape b);
  Ok (mk_ndarray (promote (dt a) (dt b)) s
        (fun i j => if bbget c i j then bget a i j else bget b i j)).

(** ** Indexing and array construction *)

(** One axis of [a[y, x]]: a negative index counts from the end, an index
    outside [-n, n) raises. *)
Definition norm_index (n : nat) (z : Z) : result nat :=
  if (0 <=? z)%Z && (z <? Z.of_nat n)%Z then Ok (Z.to_nat z)
  else if (- Z.of_nat n <=? z)%Z && (z <? 0)%Z then Ok (Z.to_nat (z + Z.of_nat n))
  else Raise (IndexError "index is out of bounds for axis").

Definition getitem (a : ndarray) (y x : Z) : result float64 :=
  do i <- norm_index (fst (shape a)) y;
  do j <- norm_index (snd (shape a)) x;
  Ok (item a i j).

(** First failure of [f] over a list of pixels, visited in order. *)
Fixpoint first_error (f : nat -> nat -> result float64) (ps : list (nat * nat))
  : option exn :=
  match ps with
  | [] => None
  | (i, j) :: ps' =>
      match f i j with
      | Raise e => Some e
      | Ok _ => first_error f ps'
      end
  end.

(** Row-major enumeration of the pixels of an [h] x [w] grid. *)
Definition pixels (h w : nat) : list (nat * nat) :=
  flat_map (fun i => map (fun j => (i, j)) (seq 0 w)) (seq 0 h).

(** [result = np.zeros((h, w), dtype=d)] followed by the double loop
    [for i in range(h): for j in range(w): result[i, j] = f(i, j)];
    the first exception raised by a pixel, in computing its value or in
    storing it, aborts the loop. *)
Definition fill (d : dtype) (h w : nat) (f : nat -> nat -> result float64)
  : result ndarray :=
  let store i j := do v <- f i j; setitem d v in
  match first_error store (pixels h w) with
  | Some e => Raise e
  | None =>
      Ok (mk_ndarray d (h, w)
            (fun i j => match store i j with Ok v => v | Raise _ => fzero end))
  end.

(** ** Stacks and reductions along axis 0 *)

Definition common_dtype (images : list ndarray) : dtype :=
  fold_right (fun a d => promote (dt a) d) int64 images.

(** Conversion to a dtype that [promote] yields.  The values are kept:
    this is what numpy does for an int64 of magnitude at most [2 ^ 53],
    larger ones are rounded to binary64 by numpy and not here.  Statements
    that read values through a stack carry that bound. *)
Definition retag (d : dtype) (a : ndarray) : ndarray :=
  mk_ndarray d (shape a) (item a).

(** [np.stack(images, axis=0)]: the layers, in order, in the common dtype. *)
Definition np_stack (images : list ndarray) : result (list ndarray) :=
  match images with
  | [] => Raise (ValueError "need at least one array to stack")
  | a :: rest =>
      if forallb (fun b => shape_eqb (shape b) (shape a)) rest
      then Ok (map (retag (common_dtype images)) images)
      else Raise (ValueError "all input arrays must have the same shape")
  end.

(** [stack[:, i, j]] *)
Definition column (stack : list ndarray) (i j : nat) : list float64 :=
  map (fun a => item a i j) stack.

(** [np.mean] of a 1-D float64 vector. *)
Definition mean1 (vals : list float64) : float64 :=
  fdiv (fold_left fadd vals fzero) (of_Z (Z.of_nat (length vals))).

Fixpoint insert_sorted (x : float64) (l : list float64) : list float64 :=
  match l with
  | [] => [x]
  | y :: l' => if fleb x y then x :: l else y :: insert_sorted x l'
  end.

Definition sort (l : list float64) : list float64 :=
  fold_right insert_sorted [] l.

(** [np.median] of a 1-D vector: NaN if any element is NaN, else the middle
    element of the sorted vector, or the mean of the two middle ones. *)
Definition median1 (vals : list float64) : float64 :=
  if existsb isnan vals then NaN
  else
    let s := sort vals in
    let n := length s in
    if Nat.even n
    then mean1 [nth (n / 2 - 1) s NaN; nth (n / 2) s NaN]
    else mean1 [nth (n / 2) s NaN].

(** [np.mean(stack, axis=0)] and [np.median(stack, axis=0)] for a stack of
    same-shape layers; the result is float64.  The reduction is exact
    here and in binary64 in numpy: the two agree to the last digit on
    floats, and exactly on integers whose sum stays within [2 ^ 53]. *)
Definition reduce0 (f : list float64 -> float64) (stack : list ndarray) : ndarray :=
  mk_ndarray float64_t
    (match stack with a :: _ => shape a | [] => (0, 0)%nat end)
    (fun i j => f (column stack i j)).

(** [np.linspace(0, stop, num)[i]] for [i < num]. *)
Definition linspace0 (stop : Z) (num : nat) (i : nat) : float64 :=
  if Nat.eqb num 1 then fzero
  else fmul (of_Z (Z.of_nat i))
            (fdiv (of_Z stop) (of_Z (Z.of_nat num - 1))).

(** ** Python scalars *)

(** Python's [x / y] on floats. *)
Definition py_truediv (x y : float64) : result float64 :=
  if feqb y fzero then Raise ZeroDivisionError else Ok (fdiv x y).

(** Python's [int(x)] on a float. *)
Definition py_int (x : float64) : result Z :=
  match x with
  | NaN => Raise (ValueError "cannot convert float NaN to integer")
  | Infty _ => Raise OverflowError
  | Finite q => Ok (Qtrunc (this q))
  end.

End Numpy.

(* ===================================================================== *)
(** * analysis.py                                                          *)
(* ===================================================================== *)

Module Analysis.
Import Numpy.

(** [AnalysisService.calculate_ndvi] *)
Definition calculate_ndvi (nir red : ndarray) : result ndarray :=
  do num <- map2 fsub (astype float64_t nir) (astype float64_t red);
  do den <- map2 fadd (astype float64_t nir) (astype float64_t red);
  do ndvi <- map2 fdiv num den;
  let ndvi := np_nan_to_num fzero fzero fzero ndvi in
  let ndvi := np_clip ndvi (fopp fone) fone in
  Ok ndvi.

(** [AnalysisService.fuse_gap_fill] *)
Definition fuse_gap_fill (sentinel_nir sentinel_red landsat_nir landsat_red : ndarray)
  : result ndarray :=
  do sentinel_ndvi <- calculate_ndvi sentinel_nir sentinel_red;
  do landsat_ndvi <- calculate_ndvi landsat_nir landsat_red;
  let sentinel_valid := np_not (np_isnan sentinel_ndvi) in
  do fused_ndvi <- np_where sentinel_valid sentinel_ndvi landsat_ndvi;
  Ok fused_ndvi.

(** ** Resampling *)

(** [(np.arange(new_n) * n / new_n).astype(int)[i]] *)
Definition nearest_index (n : nat) (new_n : Z) (i : nat) : Z :=
  to_int64 (fdiv (of_Z (Z.of_nat i * Z.of_nat n)) (of_Z new_n)).

(** [array[np.ix_(ys, xs)]]: every index is checked before the result is
    built. *)
Fixpoint check_indices (n : nat) (zs : list Z) : result (list nat) :=
  match zs with
  | [] => Ok []
  | z :: zs' =>
      do i <- norm_index n z;
      do rest <- check_indices n zs';
      Ok (i :: rest)
  end.

Definition take_ix (a : ndarray) (ys xs : list Z) : result ndarray :=
  do rows <- check_indices (fst (shape a)) ys;
  do cols <- check_indices (snd (shape a)) xs;
  Ok (mk_ndarray (dt a) (length rows, length cols)
        (fun i j => item a (nth i rows 0%nat) (nth j cols 0%nat))).

(** [AnalysisService._resample_nearest] *)
Definition _resample_nearest (array : ndarray) (new_h new_w : Z) : result ndarray :=
  let '(h, w) := shape array in
  let y_indices := map (nearest_index h new_h) (seq 0 (Z.to_nat new_h)) in
  let x_indices := map (nearest_index w new_w) (seq 0 (Z.to_nat new_w)) in
  take_ix array y_indices x_indices.

(** One pixel of the double loop of [_resample_bilinear]. *)
Definition bilinear_pixel (array : ndarray) (h w : nat) (yi xi : float64)
  : result float64 :=
  do iy <- py_int yi;
  do ix <- py_int xi;
  let y0 := iy in
  let y1 := Z.min (iy + 1) (Z.of_nat h - 1) in
  let x0 := ix in
  let x1 := Z.min (ix + 1) (Z.of_nat w - 1) in
  let fy := fsub yi (of_Z y0) in
  let fx := fsub xi (of_Z x0) in
  do a00 <- getitem array y0 x0;
  do a01 <- getitem array y0 x1;
  do a10 <- getitem array y1 x0;
  do a11 <- getitem array y1 x1;
  Ok (fadd (fadd (fadd
        (fmul (fmul a00 (fsub fone fx)) (fsub fone fy))
        (fmul (fmul a01 fx) (fsub fone fy)))
        (fmul (fmul a10 (fsub fone fx)) fy))
        (fmul (fmul a11 fx) fy)).

(** [AnalysisService._resample_bilinear] *)
Definition _resample_bilinear (array : ndarray) (new_h new_w : Z) : result ndarray :=
  let '(h, w) := shape array in
  if (new_h <? 0)%Z || (new_w <? 0)%Z
  then Raise (ValueError "Number of samples must be non-negative")
  else
    let nh := Z.to_nat new_h in
    let nw := Z.to_nat new_w in
    let y := linspace0 (Z.of_nat h - 1) nh in
    let x := linspace0 (Z.of_nat w - 1) nw in
    fill (dt array) nh nw (fun i j => bilinear_pixel array h w (y i) (x j)).

(** [AnalysisService._resample_bicubic] *)
Definition _resample_bicubic (array : ndarray) (new_h new_w : Z) : result ndarray :=
  _resample_bilinear array new_h new_w.

(** [AnalysisService.resample_array].  The scale factor and the products
    with the shape are exact here; binary64 agrees when the quotient is an
    integer (and no larger than [2 ^ 53]). *)
Definition resample_array (array : ndarray)
    (source_resolution target_resolution : float64) (method : string)
  : result ndarray :=
  if feqb source_resolution target_resolution then Ok array
  else
    do scale_factor <- py_truediv source_resolution target_resolution;
    do new_height <- py_int (fmul (of_Z (Z.of_nat (fst (shape array)))) scale_factor);
    do new_width <- py_int (fmul (of_Z (Z.of_nat (snd (shape array)))) scale_factor);
    if String.eqb method "nearest" then _resample_nearest array new_height new_width
    else if String.eqb method "bilinear" then _resample_bilinear array new_height new_width
    else if String.eqb method "bicubic" then _resample_bicubic array new_height new_width
    else Raise (ValueError "Unknown resampling method").

(** ** Band compositing *)

(** The [for k, mask in enumerate(quality_masks)] loop with its [else]
    branch, at pixel [(i, j)]; [k] is the index of the head of [masks]. *)
Fixpoint best_pixel_scan (images stack : list ndarray) (i j : nat)
    (k : nat) (masks : list ndarray) : result float64 :=
  match masks with
  | [] => Ok (median1 (column stack i j))
  | mask :: masks' =>
      do m <- getitem mask (Z.of_nat i) (Z.of_nat j);
      if fgtb m fzero then
        match nth_error images k with
        | Some img => getitem img (Z.of_nat i) (Z.of_nat j)
        | None => Raise (IndexError "list index out of range")
        end
      else best_pixel_scan images stack i j (S k) masks'
  end.

(** [AnalysisService.fuse_best_pixel]; [quality_masks = None] is [None]. *)
Definition fuse_best_pixel (images : list ndarray)
    (quality_masks : option (list ndarray)) : result ndarray :=
  match images with
  | [] => Raise (ValueError "No images provided for fusion")
  | [img] => Ok img
  | img0 :: rest =>
      if negb (forallb (fun img => shape_eqb (shape img) (shape img0)) rest)
      then Raise (ValueError "All images must have the same shape")
      else
        do stack <- np_stack images;
        match quality_masks with
        | Some (m :: ms) =>
            do mask_stack <- np_stack (m :: ms);
            fill (dt img0) (fst (shape img0)) (snd (shape img0))
              (fun i j => best_pixel_scan images stack i j 0 (m :: ms))
        | _ => Ok (astype (dt img0) (reduce0 median1 stack))
        end
  end.

(** [AnalysisService.fuse_mean] *)
Definition fuse_mean (images : list ndarray) : result ndarray :=
  match images with
  | [] => Raise (ValueError "No images provided")
  | img0 :: _ =>
      do stack <- np_stack images;
      Ok (astype (dt img0) (reduce0 mean1 stack))
  end.

(** [AnalysisService.fuse_median] *)
Definition fuse_median (images : list ndarray) : result ndarray :=
  match images with
  | [] => Raise (ValueError "No images provided")
  | img0 :: _ =>
      do stack <- np_stack images;
      Ok (astype (dt img0) (reduce0 median1 stack))
  end.

(** ** Water index *)

(** [AnalysisService.calculate_ndwi] *)
Definition calculate_ndwi (green nir : ndarray) : result ndarray :=
  do num <- map2 fsub (astype float64_t green) (astype float64_t nir);
  do den <- map2 fadd (astype float64_t green) (astype float64_t nir);
  do ndwi <- map2 fdiv num den;
  let ndwi := np_nan_to_num fzero fzero fzero ndwi in
  Ok (np_clip ndwi (fopp fone) fone).

End Analysis.

(* ===================================================================== *)
(** * gee_fusion_service.py: arrays                                        *)
(* ===================================================================== *)

Module GeeFusion.
Import Numpy.

(** A [(bands, H, W)] tensor. *)
Record tensor : Type := mk_tensor {
  tdt : dtype;
  tbands : nat;
  tshape : nat * nat;
  titem : nat -> nat -> nat -> float64
}.

(** [fused_tensor[idx]] *)
Definition band (t : tensor) (idx : Z) : result ndarray :=
  do c <- norm_index (tbands t) idx;
  Ok (mk_ndarray (tdt t) (tshape t) (titem t c)).

(** [np.where(c, a, 0)] *)
Definition np_where_scalar (c : boolarray) (a : ndarray) (v : float64)
  : result ndarray :=
  do s <- broadcast_shape (bshape c) (shape a);
  Ok (mk_ndarray float64_t s (fun i j => if bbget c i j then bget a i j else v)).

(** [a != 0] *)
Definition np_ne_scalar (a : ndarray) (v : float64) : boolarray :=
  mk_boolarray (shape a) (fun i j => fneb (item a i j) v).

(** [GEEFusionService.compute_ndvi] *)
Definition compute_ndvi (fused_tensor : tensor) (nir_idx red_idx : Z)
  : result ndarray :=
  do nir0 <- band fused_tensor nir_idx;
  let nir := astype float64_t nir0 in
  do red0 <- band fused_tensor red_idx;
  let red := astype float64_t red0 in
  do denominator <- map2 fadd nir red;
  do diff <- map2 fsub nir red;
  do quot <- map2 fdiv diff denominator;
  np_where_scalar (np_ne_scalar denominator fzero) quot fzero.

(** ** [scipy.ndimage.zoom(input, (zoom_h, zoom_w), order, mode='nearest')]

    scipy is a library; its kernel is modelled after [NI_ZoomShift]: output
    coordinate [j] maps to the input coordinate [j * (n_in - 1) / (n_out - 1)],
    clamped to the input by mode ['nearest']; order 0 reads the element at
    [floor(c + 0.5)], order 1 interpolates linearly between [floor(c)] and
    its successor, both clamped to the edge. *)

Definition zoom_coord (n_in n_out j : nat) : Q :=
  let z := if Nat.eqb n_out 1 then 1
           else inject_Z (Z.of_nat n_in - 1) / inject_Z (Z.of_nat n_out - 1) in
  let cc := inject_Z (Z.of_nat j) * z in
  Qmax 0 (Qmin cc (inject_Z (Z.of_nat n_in - 1))).

Definition edge (n : nat) (z : Z) : nat :=
  Z.to_nat (Z.max 0 (Z.min z (Z.of_nat n - 1))).

Definition zoom_nearest_index (n_in n_out j : nat) : nat :=
  edge n_in (Qfloor (zoom_coord n_in n_out j + (1 # 2))).

(** Conversion of an interpolated value to the output dtype: integer
    outputs are rounded, [floor(t + 0.5)]. *)
Definition zoom_out (d : dtype) (t : float64) : float64 :=
  match d, t with
  | int64, Finite q => cast int64 (of_Z (Qfloor (this q + (1 # 2))))
  | _, _ => cast d t
  end.

Definition zoom_linear_pixel (a : ndarray) (th tw i j : nat) : float64 :=
  let '(h, w) := shape a in
  let cy := zoom_coord h th i in
  let cx := zoom_coord w tw j in
  let y0 := Qfloor cy in
  let x0 := Qfloor cx in
  let fy := fin (cy - inject_Z y0) in
  let fx := fin (cx - inject_Z x0) in
  let at_ (y x : Z) := item a (edge h y) (edge w x) in
  fadd (fadd (fadd
    (fmul (fmul (fsub fone fy) (fsub fone fx)) (at_ y0 x0))
    (fmul (fmul (fsub fone fy) fx) (at_ y0 (x0 + 1)%Z)))
    (fmul (fmul fy (fsub fone fx)) (at_ (y0 + 1)%Z x0)))
    (fmul (fmul fy fx) (at_ (y0 + 1)%Z (x0 + 1)%Z)).

(** [ndimage.zoom(a, (th / h, tw / w), order=order, mode='nearest')];
    the output shape [round(h * (th / h))] is [th]. *)
Definition ndimage_zoom (a : ndarray) (th tw : nat) (order : nat) : ndarray :=
  let '(h, w) := shape a in
  mk_ndarray (dt a) (th, tw)
    (fun i j =>
       match order with
       | O => item a (zoom_nearest_index h th i) (zoom_nearest_index w tw j)
       | _ => zoom_out (dt a) (zoom_linear_pixel a th tw i j)
       end).

(** Python's [n / m] on ints, used for [zoom_h] and [zoom_w]. *)
Definition int_truediv (n m : nat) : result Q :=
  if Nat.eqb m 0 then Raise ZeroDivisionError
  else Ok (inject_Z (Z.of_nat n) / inject_Z (Z.of_nat m)).


(** [GEEFusionService.resample_to_target], multi-band [(C, H, W)]: every
    band goes through [ndimage.zoom] on its own. *)
Definition resample_to_target3 (source : tensor) (target_shape : nat * nat)
    (method : string) : result tensor :=
  if shape_eqb (tshape source) target_shape then Ok source
  else
    let order := if String.eqb method "bilinear" then 1%nat else 0%nat in
    do zoom_h <- int_truediv (fst target_shape) (fst (tshape source));
    do zoom_w <- int_truediv (snd target_shape) (snd (tshape source));
    Ok (mk_tensor (tdt source) (tbands source) target_shape
          (fun c => item (ndimage_zoom
                            (mk_ndarray (tdt source) (tshape source) (titem source c))
                            (fst target_shape) (snd target_shape) order))).

(** [GEEFusionService.compute_ndwi] *)
Definition compute_ndwi (fused_tensor : tensor) (green_idx nir_idx : Z)
  : result ndarray :=
  do green0 <- band fused_tensor green_idx;
  let green := astype float64_t green0 in
  do nir0 <- band fused_tensor nir_idx;
  let nir := astype float64_t nir0 in
  do denominator <- map2 fadd green nir;
  do diff <- map2 fsub green nir;
  do quot <- map2 fdiv diff denominator;
  np_where_scalar (np_ne_scalar denominator fzero) quot fzero.



(** ** Display normalisation *)

(** A [(H, W)] array of dtype uint8. *)
Record u8array : Type := mk_u8array {
  u8shape : nat * nat;
  u8item : nat -> nat -> Z
}.

(** [x.astype(np.uint8)] on one scalar: truncation, then the low eight
    bits.  NaN and infinities have no defined result; 0 stands for it. *)
Definition to_uint8 (x : float64) : Z :=
  match x with
  | Finite q => (Qtrunc (this q)) mod 256
  | _ => 0%Z
  end.

(** The pixels of a grid in row-major order, and [band[band > 0]]. *)
Definition ravel (a : ndarray) : list float64 :=
  map (fun p => item a (fst p) (snd p)) (pixels (fst (shape a)) (snd (shape a))).

Definition positives (band : ndarray) : list float64 :=
  List.filter (fun v => fgtb v fzero) (ravel band).

(** numpy's [_lerp(a, b, t)]. *)
Definition lerp (a b t : float64) : float64 :=
  if fleb (fin (1 # 2)) t
  then fsub b (fmul (fsub b a) (fsub fone t))
  else fadd a (fmul (fsub b a) t).

(** [np.percentile(a, q)] for one percentile [q], method ['linear'],
    modelled after numpy's [_quantile]: the virtual index
    [(n - 1) * q / 100] is split into its floor and the fraction left,
    and the two neighbours in sorted order are interpolated; at or above
    the last index both neighbours are the last element. *)
Definition percentile1 (a : list float64) (q : Z) : result float64 :=
  if (q <? 0)%Z || (100 <? q)%Z
  then Raise (ValueError "Percentiles must be in the range [0, 100]")
  else if existsb isnan a then Ok NaN
  else
    let s := sort a in
    let n := Z.of_nat (length a) in
    let virtual := (inject_Z (n - 1) * (inject_Z q / 100))%Q in
    if Qle_bool (inject_Z (n - 1)) virtual
    then
      let last := nth (length a - 1) s NaN in
      Ok (lerp last last (fin (virtual + 1)))
    else
      let previous := Qfloor virtual in
      Ok (lerp (nth (Z.to_nat previous) s NaN)
               (nth (Z.to_nat (previous + 1)) s NaN)
               (fin (virtual - inject_Z previous))).

(** [GEEFusionService._normalize_band] *)
Definition _normalize_band (band : ndarray) (percentile_clip : Z * Z)
  : result u8array :=
  do p <-
    (if existsb (fun v => fgtb v fzero) (ravel band)
     then
       (* both percentiles are validated before either is computed *)
       if (fst percentile_clip <? 0)%Z || (100 <? fst percentile_clip)%Z
          || (snd percentile_clip <? 0)%Z || (100 <? snd percentile_clip)%Z
       then Raise (ValueError "Percentiles must be in the range [0, 100]")
       else
         do lo <- percentile1 (positives band) (fst percentile_clip);
         do hi <- percentile1 (positives band) (snd percentile_clip);
         Ok (lo, hi)
     else Ok (fzero, fone));
  let p_low := fst p in
  let p_high := snd p in
  let clipped x := clip1 p_low p_high x in
  let normalized x :=
    if fgtb p_high p_low
    then fdiv (fsub (clipped x) p_low) (fsub p_high p_low)
    else fzero in
  Ok (mk_u8array (shape band)
        (fun i j => to_uint8 (fmul (normalized (item band i j)) (of_Z 255)))).

End GeeFusion.

(* ===================================================================== *)
(** * gee_fusion_service.py: the geographic window                         *)
(* ===================================================================== *)

(** [create_geo_window] works on Python floats with [math.cos]; it is
    modelled over the real numbers, with Python's [ZeroDivisionError] on a
    zero divisor. *)

Module GeoWindow.
Local Open Scope R_scope.

Definition DEFAULT_WINDOW_SIZE : Z := 256.

(** [math.radians] *)
Definition radians (x : R) : R := x * PI / 180.

(** Python's [x / y] on floats. *)
Definition truediv (x y : R) : result R :=
  if Req_dec_T y 0 then Raise ZeroDivisionError else Ok (x / y).


Definition west (b : R * R * R * R) : R := fst (fst (fst b)).
Definition south (b : R * R * R * R) : R := snd (fst (fst b)).
Definition east (b : R * R * R * R) : R := snd (fst b).
Definition north (b : R * R * R * R) : R := snd b.

(** The pixel estimate and the scale adjustment at the head of
    [GEEFusionService.fetch_as_array] (the part that precedes the calls to
    Earth Engine): the scale, in metres, at which the image is reprojected.
    [width_m] is a numpy float, [height_m] a Python float: only the second
    division raises on a zero scale. *)
Definition pixel_estimate (bounds : R * R * R * R) (scale : R) : result (R * R) :=
  let avg_lat := (south bounds + north bounds) / 2 in
  let lat_m_per_deg := 111000 in
  let lon_m_per_deg := 111000 * cos (radians avg_lat) in
  let width_m := (east bounds - west bounds) * lon_m_per_deg in
  let height_m := (north bounds - south bounds) * lat_m_per_deg in
  let w_pixels := width_m / scale in
  do h_pixels <- truediv height_m scale;
  Ok (w_pixels, h_pixels).

Definition fetch_scale (bounds : R * R * R * R) (scale : R) : result R :=
  let avg_lat := (south bounds + north bounds) / 2 in
  let lat_m_per_deg := 111000 in
  let lon_m_per_deg := 111000 * cos (radians avg_lat) in
  let width_m := (east bounds - west bounds) * lon_m_per_deg in
  let height_m := (north bounds - south bounds) * lat_m_per_deg in
  do px <- pixel_estimate bounds scale;
  let safe_limit := 512 in
  if Rlt_dec safe_limit (fst px) then
    let scale_w := width_m / safe_limit in
    let scale_h := height_m / safe_limit in
    let new_scale := Rmax (Rmax scale_w scale_h) scale in
    Ok (Rmax new_scale scale)
  else if Rlt_dec safe_limit (snd px) then
    let scale_w := width_m / safe_limit in
    let scale_h := height_m / safe_limit in
    let new_scale := Rmax (Rmax scale_w scale_h) scale in
    Ok (Rmax new_scale scale)
  else Ok scale.

End GeoWindow.

(* ===================================================================== *)
(** * cache_service.py                                                     *)
(* ===================================================================== *)

(** The cache directory holds one file [<key>.webp] per key in each of the
    three sub-directories; a file is known by its directory and its key,
    and the file system by the size of every file present.  Removing a
    file that exists succeeds.  A time is a number of microseconds since
    [datetime.min], 0001-01-01T00:00:00; [datetime.now()] is read on the
    naive local clock. *)

Module Cache.
Local Open Scope Z_scope.

Inductive subdir : Type := full_dir | thumb_dir | preview_dir.

#[global] Instance subdir_eq_dec : EqDecision subdir.
Proof. solve_decision. Defined.

(** One record of [metadata.json]; [timestamp] is [meta.get('timestamp')]. *)
Record meta : Type := mk_meta {
  timestamp : option string;
  full_size_bytes : Z;
  thumb_size_bytes : Z;
  preview_size_bytes : Z
}.

Record service : Type := mk_service {
  metadata : gmap string meta;          (* self.metadata *)
  files : subdir -> gmap string Z;      (* size of <dir>/<key>.webp *)
  metadata_file : gmap string meta      (* content of metadata.json *)
}.

(** The dict returned by [cleanup_old_cache]. *)
Record cleanup_stats : Type := mk_stats {
  items_removed : Z;
  space_freed_mb : Q
}.

Definition microseconds_per_day : Z := 86400 * 1000000.

(** A [datetime] value: naive, or carrying a UTC offset. *)
Inductive datetime : Type :=
| naive (t : Z)
| aware (t : Z).

(** [timedelta.max.days], and [datetime.max], 9999-12-31T23:59:59.999999. *)
Definition timedelta_max_days : Z := 999999999.
Definition datetime_max : Z := 3652059 * microseconds_per_day - 1.

(** [datetime.now() - timedelta(days=max_age_days)]: the [timedelta]
    and the difference each raise [OverflowError] outside their range. *)
Definition cutoff (now max_age_days : Z) : result Z :=
  if timedelta_max_days <? Z.abs max_age_days then Raise OverflowError
  else
    let cutoff_time := now - max_age_days * microseconds_per_day in
    if (0 <=? cutoff_time) && (cutoff_time <=? datetime_max) then Ok cutoff_time
    else Raise OverflowError.

Section Cleanup.

(** [datetime.fromisoformat]; [None] when it raises. *)
Variable fromisoformat : string -> option datetime.

(** The test of the first loop on one record.  Comparing an aware
    timestamp with the naive [cutoff_time] raises [TypeError], which the
    bare [except] swallows like a failure to parse. *)
Definition expired (cutoff_time : Z) (m : meta) : bool :=
  match timestamp m with
  | Some timestamp_str =>
      if String.eqb timestamp_str "" then false
      else match fromisoformat timestamp_str with
           | Some (naive t) => t <? cutoff_time
           | Some (aware _) => false
           | None => false
           end
  | None => false
  end.

Definition keys_to_remove (md : gmap string meta) (cutoff_time : Z) : list string :=
  (filter (fun km => expired cutoff_time km.2 = true) (map_to_list md)).*1.

(** Body of [for file_dir in [...]]: size and remove the file if present. *)
Definition remove_file (cache_key : string)
    (acc : (subdir -> gmap string Z) * Z) (file_dir : subdir)
  : (subdir -> gmap string Z) * Z :=
  match acc.1 file_dir !! cache_key with
  | Some size =>
      (fun d => if decide (d = file_dir) then delete cache_key (acc.1 d) else acc.1 d,
       acc.2 + size)
  | None => acc
  end.

Record sweep : Type := mk_sweep {
  sw_files : subdir -> gmap string Z;
  sw_metadata : gmap string meta;
  sw_items_removed : Z;
  sw_space_freed : Z
}.

(** Body of [for cache_key in keys_to_remove], with its [try]/[except]:
    a key missing from the index raises [KeyError] after its files are
    gone, and is not counted. *)
Definition remove_item (s : sweep) (cache_key : string) : sweep :=
  let acc := fold_left (remove_file cache_key)
               [full_dir; thumb_dir; preview_dir]
               (sw_files s, sw_space_freed s) in
  match sw_metadata s !! cache_key with
  | Some _ =>
      mk_sweep acc.1 (delete cache_key (sw_metadata s))
               (sw_items_removed s + 1) acc.2
  | None =>
      mk_sweep acc.1 (sw_metadata s) (sw_items_removed s) acc.2
  end.

(** The two loops of [cleanup_old_cache] and what follows them, once
    [cutoff_time] is known. *)
Definition cleanup_from (self : service) (cutoff_time : Z)
  : service * cleanup_stats :=
  let keys := keys_to_remove (metadata self) cutoff_time in
  let s := fold_left remove_item keys
             (mk_sweep (files self) (metadata self) 0 0) in
  let saved := if 0 <? sw_items_removed s then sw_metadata s
               else metadata_file self in
  (mk_service (sw_metadata s) (sw_files s) saved,
   mk_stats (sw_items_removed s)
            (inject_Z (sw_space_freed s) / inject_Z (1024 * 1024))%Q).

(** [CacheService.cleanup_old_cache], run at time [now]: the cache as the
    call leaves it, and the dict it returns or the exception it raises.
    The cutoff is computed before anything is touched. *)
Definition cleanup_old_cache (self : service) (now : Z) (max_age_days : Z)
  : service * result cleanup_stats :=
  match cutoff now max_age_days with
  | Raise e => (self, Raise e)
  | Ok cutoff_time =>
      let r := cleanup_from self cutoff_time in (r.1, Ok r.2)
  end.

(** Disk usage of one directory and of the cache. *)
Definition dir_size (m : gmap string Z) : Z :=
  map_fold (fun _ size acc => size + acc) 0 m.

Definition disk_usage (fs : subdir -> gmap string Z) : Z :=
  dir_size (fs full_dir) + dir_size (fs thumb_dir) + dir_size (fs preview_dir).

(** An entry of the index whose recorded timestamp is older than the
    cutoff. *)
Definition is_old (md : gmap string meta) (cutoff_time : Z) (k : string) : Prop :=
  exists m, md !! k = Some m /\ expired cutoff_time m = true.

End Cleanup.



End Cache.

(* ===================================================================== *)
(** * Concrete grids used by the examples                                  *)
(* ===================================================================== *)

Module Grids.
Import Numpy.

(** A constant [h] x [w] grid. *)
Definition full (d : dtype) (h w : nat) (v : float64) : ndarray :=
  mk_ndarray d (h, w) (fun _ _ => v).

(** A one-row grid holding the listed values. *)
Definition row (d : dtype) (vs : list float64) : ndarray :=
  mk_ndarray d (1%nat, length vs) (fun _ j => nth j vs fzero).

(** A seven-band tensor whose band 6 (NIR) and band 2 (red) are given. *)
Definition nir_red_tensor (nir red : ndarray) : GeeFusion.tensor :=
  GeeFusion.mk_tensor float64_t 7 (shape nir)
    (fun c => match c with
              | 6%nat => item nir
              | 2%nat => item red
              | _ => fun _ _ => fzero
              end).

(** A cache with one entry written on day 0 and one written on day 100,
    whose timestamps are the strings ["day0"] and ["day100"];
    ["day0+00:00"] is day 0 with a UTC offset. *)
Definition parse_day (s : string) : option Cache.datetime :=
  if String.eqb s "day0" then Some (Cache.naive 0%Z)
  else if String.eqb s "day100"
  then Some (Cache.naive (100 * Cache.microseconds_per_day)%Z)
  else if String.eqb s "day0+00:00" then Some (Cache.aware 0%Z)
  else None.

Definition two_entries : Cache.service :=
  Cache.mk_service
    {[ "old" := Cache.mk_meta (Some "day0") 1048576 524288 524288;
       "new" := Cache.mk_meta (Some "day100") 7 5 3 ]}
    (fun d => match d with
              | Cache.full_dir => {[ "old" := 1048576%Z; "new" := 7%Z ]}
              | Cache.thumb_dir => {[ "old" := 524288%Z; "new" := 5%Z ]}
              | Cache.preview_dir => {[ "old" := 524288%Z; "new" := 3%Z ]}
              end)
    {[ "old" := Cache.mk_meta (Some "day0") 1048576 524288 524288;
       "new" := Cache.mk_meta (Some "day100") 7 5 3 ]}.

End Grids.

(* ===================================================================== *)
(** * Notions used in the statements                                       *)
(* ===================================================================== *)

Module Notions.
Import Numpy.

(** The NDVI of one pixel, as [calculate_ndvi] computes it. *)
Definition ndvi1 (n r : float64) : float64 :=
  clip1 (fopp fone) fone (nan_to_num1 fzero fzero fzero (fdiv (fsub n r) (fadd n r))).


(** The elements of the array are values of its dtype. *)
Definition well_typed (a : ndarray) : Prop :=
  forall i j, cast (dt a) (item a i j) = item a i j.


Definition int_within (b : Z) (v : float64) : Prop :=
  exists z, v = of_Z z /\ (Z.abs z <= b)%Z.

(** A finite value of magnitude at most [b]. *)
Definition within (b : Z) (v : float64) : Prop :=
  exists q : Qc, v = Finite q /\ (Qabs q <= inject_Z b)%Q.


(** Every pixel of the grid is finite and of magnitude at most [b]. *)
Definition within_grid (b : Z) (a : ndarray) : Prop :=
  forall i j, (i < fst (shape a))%nat -> (j < snd (shape a))%nat ->
    within b (item a i j).

(** The pixels of an int64 grid are integers that binary64 holds exactly. *)
Definition exact_ints (a : ndarray) : Prop :=
  dt a = int64 ->
  forall i j, (i < fst (shape a))%nat -> (j < snd (shape a))%nat ->
    int_within (2 ^ 53) (item a i j).

(** The error raised on a stack of differing shapes: by [np.stack] in
    [fuse_mean] and [fuse_median], by the explicit test in
    [fuse_best_pixel]. *)
Definition stack_mismatch : exn :=
  ValueError "all input arrays must have the same shape".
Definition images_mismatch : exn :=
  ValueError "All images must have the same shape".

(** A finite, non-negative value (a reflectance). *)
Definition nonneg (x : float64) : bool :=
  match x with
  | Finite q => Qle_bool 0 q
  | _ => false
  end.

(** The number of observations at most, and at least, [v]. *)
Definition count_le (v : float64) (l : list float64) : nat :=
  length (List.filter (fun x => fleb x v) l).
Definition count_ge (v : float64) (l : list float64) : nat :=
  length (List.filter (fun x => fleb v x) l).

(** No observation of the column is NaN. *)
Definition nan_free (l : list float64) : Prop :=
  Forall (fun x => isnan x = false) l.

(** Every value of the list is finite. *)
Definition all_finite (l : list float64) : Prop :=
  Forall (fun x => exists q, x = Finite q) l.

(** The linear stretch of [x] from [[lo, hi]] onto [[0, 255]], clamped. *)
Definition stretch (lo hi x : Q) : Q :=
  if Qlt_le_dec lo hi
  then (Qmin hi (Qmax x lo) - lo) / (hi - lo) * 255
  else 0.

(** Every pixel of the grid is finite. *)
Definition finite_grid (a : ndarray) : Prop :=
  forall i j, (i < fst (shape a))%nat -> (j < snd (shape a))%nat ->
              exists q, item a i j = Finite q.

End Notions.

(* ===================================================================== *)
(** * Facts about arrays, indexing and loops                               *)
(* ===================================================================== *)

Module ArrayFacts.
Import Numpy.

Lemma broadcast_dim_same n : broadcast_dim n n = Some n.
Proof. unfold broadcast_dim. now rewrite Nat.eqb_refl. Qed.

Lemma broadcast_shape_same s : broadcast_shape s s = Ok s.
Proof.
  unfold broadcast_shape. rewrite !broadcast_dim_same. now destruct s.
Qed.

Lemma bidx_lt n i : (i < n)%nat -> bidx n i = i.
Proof.
  unfold bidx. destruct (Nat.eqb_spec n 1); [lia | reflexivity].
Qed.

Lemma shape_eqb_eq s t : shape_eqb s t = true <-> s = t.
Proof.
  unfold shape_eqb. destruct s as [a b], t as [c d]. cbn.
  rewrite andb_true_iff, !Nat.eqb_eq. split.
  - intros [-> ->]. reflexivity.
  - intros H. inversion H. auto.
Qed.

Lemma pixels_in h w i j : In (i, j) (pixels h w) <-> (i < h /\ j < w)%nat.
Proof.
  unfold pixels. rewrite in_flat_map. split.
  - intros (x & Hx & Hin). apply in_map_iff in Hin as (y & Heq & Hy).
    inversion Heq; subst. apply in_seq in Hx, Hy. lia.
  - intros [Hi Hj]. exists i. split; [apply in_seq; lia|].
    apply in_map_iff. exists j. split; [reflexivity | apply in_seq; lia].
Qed.

Lemma first_error_none f ps :
  (forall i j, In (i, j) ps -> exists v, f i j = Ok v) ->
  first_error f ps = None.
Proof.
  induction ps as [| [i j] ps IH]; intros H; cbn; [reflexivity|].
  destruct (H i j (or_introl eq_refl)) as [v ->].
  apply IH. intros i' j' Hin. apply H. now right.
Qed.

(** A loop none of whose pixels raises fills the whole grid. *)
(** A store that succeeds writes the value [astype] would give. *)
Lemma setitem_cast d v u : setitem d v = Ok u -> u = cast d v.
Proof.
  destruct d; cbn; [|congruence].
  destruct v as [| s | q]; try discriminate. unfold to_int64.
  destruct (_ && _); [congruence | discriminate].
Qed.

Lemma setitem_float64 v : setitem float64_t v = Ok v.
Proof. reflexivity. Qed.

Lemma this_Q2Qc q : (this (Q2Qc q) == q)%Q.
Proof. cbn. apply Qred_correct. Qed.

Lemma Qtrunc_inject_Z (q : Q) z : (q == inject_Z z)%Q -> Qtrunc q = z.
Proof.
  unfold Qeq, Qtrunc. cbn. rewrite Z.mul_1_r. intros ->.
  apply Z.quot_mul. discriminate.
Qed.

Lemma Qtrunc_of_Z z : Qtrunc (this (Q2Qc (inject_Z z))) = z.
Proof. apply Qtrunc_inject_Z. cbn. apply Qred_correct. Qed.

(** An integer within int64 is stored as it is. *)
Lemma setitem_of_Z d z :
  (int64_min <= z <= int64_max)%Z -> setitem d (of_Z z) = Ok (of_Z z).
Proof.
  intros H. destruct d; [|reflexivity]. unfold setitem, of_Z, fin.
  pose proof (Qtrunc_of_Z z) as E.
  rewrite E.
  replace ((int64_min <=? z)%Z && (z <=? int64_max)%Z) with true; [reflexivity|].
  symmetry. apply andb_true_iff. split; apply Z.leb_le; lia.
Qed.


(** A loop none of whose pixels raises, in its value or in its store,
    fills the whole grid. *)
Lemma fill_ok d h w f :
  (forall i j, (i < h)%nat -> (j < w)%nat ->
     exists v u, f i j = Ok v /\ setitem d v = Ok u) ->
  exists r, fill d h w f = Ok r /\ dt r = d /\ shape r = (h, w) /\
            forall i j v, (i < h)%nat -> (j < w)%nat ->
                          f i j = Ok v -> item r i j = cast d v.
Proof.
  intros H. unfold fill. rewrite first_error_none.
  - eexists. repeat split. intros i j v Hi Hj E. cbn.
    destruct (H i j Hi Hj) as (v' & u & E' & Eu).
    rewrite E in E' |- *. inversion E'; subst v'. cbn [bind]. rewrite Eu.
    now apply setitem_cast.
  - intros i j Hin. apply pixels_in in Hin as [Hi Hj].
    destruct (H i j Hi Hj) as (v & u & -> & Eu). cbn [bind]. eauto.
Qed.


Lemma Qtrunc_abs_le (q : Q) b : (Qabs q <= inject_Z b)%Q -> (Z.abs (Qtrunc q) <= b)%Z.
Proof.
  destruct q as [n d]. unfold Qle, Qtrunc. cbn. rewrite Z.mul_1_r. intros H.
  rewrite <- Z.quot_abs by discriminate. cbn [Z.abs].
  rewrite Z.quot_div_nonneg by lia.
  apply Z.div_le_upper_bound; lia.
Qed.

(** A finite value of magnitude at most [2 ^ 53] can be stored in a grid
    of either dtype. *)
Lemma within_setitem d b v :
  (b <= 2 ^ 53)%Z -> Notions.within b v -> exists u, setitem d v = Ok u.
Proof.
  intros Hb (q & -> & Hq). destruct d; [|cbn; eauto]. unfold setitem.
  assert (H : (Z.abs (Qtrunc (this q)) <= b)%Z) by now apply Qtrunc_abs_le.
  replace ((int64_min <=? Qtrunc (this q))%Z && (Qtrunc (this q) <=? int64_max)%Z)
    with true; [eauto|].
  symmetry. apply andb_true_iff.
  unfold int64_min, int64_max. split; apply Z.leb_le; lia.
Qed.

Lemma int_within_within b v : Notions.int_within b v -> Notions.within b v.
Proof.
  intros (z & -> & Hz). eexists. split; [reflexivity|].
  rewrite this_Q2Qc. unfold Qle. cbn. lia.
Qed.






Lemma norm_index_ok n i : (i < n)%nat -> norm_index n (Z.of_nat i) = Ok i.
Proof.
  intros H. unfold norm_index.
  replace ((0 <=? Z.of_nat i)%Z && (Z.of_nat i <? Z.of_nat n)%Z) with true.
  - now rewrite Nat2Z.id.
  - symmetry. apply andb_true_iff. split; [apply Z.leb_le | apply Z.ltb_lt]; lia.
Qed.

Lemma getitem_ok a i j :
  (i < fst (shape a))%nat -> (j < snd (shape a))%nat ->
  getitem a (Z.of_nat i) (Z.of_nat j) = Ok (item a i j).
Proof.
  intros Hi Hj. unfold getitem. now rewrite !norm_index_ok.
Qed.

End ArrayFacts.

(* ===================================================================== *)
(** * Properties of the spectral index and of gap filling                  *)
(* ===================================================================== *)

Module IndexSpec.
Import Numpy Analysis Notions ArrayFacts.

(** On same-shape inputs [calculate_ndvi] succeeds and is [ndvi1] at every
    pixel. *)
Lemma calculate_ndvi_same_shape nir red :
  shape nir = shape red ->
  exists r, calculate_ndvi nir red = Ok r /\
            shape r = shape nir /\
            forall i j, (i < fst (shape nir))%nat -> (j < snd (shape nir))%nat ->
                        item r i j = ndvi1 (item nir i j) (item red i j).
Proof.
  intros Hs. unfold calculate_ndvi, map2. cbn [astype shape].
  rewrite <- Hs, broadcast_shape_same. cbn [bind shape].
  rewrite broadcast_shape_same. cbn [bind].
  eexists; split; [reflexivity|]. split; [reflexivity|].
  intros i j Hi Hj. cbn. unfold bget. cbn [shape item].
  rewrite <- ?Hs.
  rewrite !(bidx_lt _ i) by assumption. rewrite !(bidx_lt _ j) by assumption.
  reflexivity.
Qed.

(** Case analysis on every rational comparison of the goal. *)
Ltac qlits :=
  change (this (Qcopp (Q2Qc 1))) with (- 1 # 1)%Q in *;
  change (this (Q2Qc 1)) with 1%Q in *;
  change (this (Q2Qc 0)) with 0%Q in *.

Ltac qcases :=
  unfold Qccompare; qlits;
  repeat match goal with
         | |- context [Qcompare ?a ?b] => destruct (Qcompare_spec a b)
         | |- context [Qeq_bool ?a ?b] =>
             let E := fresh "E" in
             destruct (Qeq_bool a b) eqn:E;
             [apply Qeq_bool_eq in E | apply Qeq_bool_neq in E]
         end;
  qlits.

Ltac qsolve :=
  cbn -[Qccompare Qcopp Q2Qc Qeq_bool]; qcases; cbn; try tauto; try (exfalso; qlra).

(** [ndvi1] is never NaN: [nan_to_num] has removed it before the clip. *)
Lemma ndvi1_not_nan n r : isnan (ndvi1 n r) = false.
Proof.
  unfold ndvi1. destruct (fdiv (fsub n r) (fadd n r)) as [| [] | q];
    try reflexivity.
  unfold clip1, maximum, minimum, fone, fopp, fzero, fltb; qsolve.
Qed.

Lemma ndvi1_range n r :
  fleb (fopp fone) (ndvi1 n r) = true /\ fleb (ndvi1 n r) fone = true.
Proof.
  unfold ndvi1. destruct (fdiv (fsub n r) (fadd n r)) as [| [] | q];
    try (split; reflexivity).
  unfold clip1, maximum, minimum, fone, fopp, fzero, fleb, fltb, feqb; qsolve.
Qed.

Lemma ndvi1_zero_denominator n r :
  feqb (fadd n r) fzero = true -> feqb (ndvi1 n r) fzero = true.
Proof.
  unfold ndvi1.
  destruct n as [| s | a], r as [| t | b];
    try discriminate; try (destruct s; discriminate);
    try (destruct s, t; discriminate).
  change (fadd (Finite a) (Finite b)) with (Finite (a + b)).
  change (feqb (Finite (a + b)) fzero) with (Qeq_bool (a + b)%Qc 0%Q).
  change (fsub (Finite a) (Finite b)) with (Finite (a + - b)).
  intros H. unfold fdiv. rewrite H.
  destruct (_ ?= _)%Qc; reflexivity.
Qed.

(** Equal bands give index 0, whatever the value. *)
Lemma ndvi1_equal_bands x : feqb (ndvi1 x x) fzero = true.
Proof.
  unfold ndvi1. destruct x as [| s | a]; try reflexivity.
  - destruct s; reflexivity.
  - change (fadd (Finite a) (Finite a)) with (Finite (a + a)).
    change (fsub (Finite a) (Finite a)) with (Finite (a + - a)).
    unfold fdiv. destruct (Qeq_bool (a + a)%Qc 0%Q) eqn:E.
    + destruct (_ ?= _)%Qc; reflexivity.
    + assert (H : ((a + - a) / (a + a) = 0)%Qc).
      { field. intros H. rewrite H in E. discriminate E. }
      rewrite H. reflexivity.
Qed.

(** What [calculate_ndvi] guarantees on same-shape bands: it returns a
    grid, every pixel of which is within [[-1, 1]] and not NaN, is 0 where
    [nir + red == 0], and is 0 where the two bands are equal. *)
Theorem calculate_ndvi_safe nir red :
  shape nir = shape red ->
  exists r, calculate_ndvi nir red = Ok r /\
    forall i j, (i < fst (shape nir))%nat -> (j < snd (shape nir))%nat ->
      fleb (fopp fone) (item r i j) = true /\
      fleb (item r i j) fone = true /\
      isnan (item r i j) = false /\
      (feqb (fadd (item nir i j) (item red i j)) fzero = true ->
       feqb (item r i j) fzero = true) /\
      (item nir i j = item red i j -> feqb (item r i j) fzero = true).
Proof.
  intros Hs. destruct (calculate_ndvi_same_shape nir red Hs) as (r & Hr & _ & Hi).
  exists r. split; [exact Hr|]. intros i j Hlt Hlt'. rewrite (Hi i j Hlt Hlt').
  repeat split; try apply ndvi1_range.
  - apply ndvi1_not_nan.
  - apply ndvi1_zero_denominator.
  - intros ->. apply ndvi1_equal_bands.
Qed.

Lemma calculate_ndvi_safe_witness :
  exists r, calculate_ndvi (Grids.full int64 2 2 (of_Z 7)) (Grids.full int64 2 2 (of_Z 7)) = Ok r /\
            feqb (item r 1 1) fzero = true.
Proof.
  destruct (calculate_ndvi_safe (Grids.full int64 2 2 (of_Z 7))
              (Grids.full int64 2 2 (of_Z 7)) eq_refl) as (r & Hr & H).
  exists r. split; [exact Hr|].
  apply (H 1%nat 1%nat); cbn; [lia | lia | reflexivity].
Defined.

(** Gap filling never consults the secondary index: on same-shape bands the
    result is the primary NDVI at every pixel. *)
Theorem fuse_gap_fill_is_primary sn sr ln lr :
  shape sn = shape sr -> shape ln = shape lr -> shape sn = shape ln ->
  exists fused, fuse_gap_fill sn sr ln lr = Ok fused /\
    forall i j, (i < fst (shape sn))%nat -> (j < snd (shape sn))%nat ->
      item fused i j = ndvi1 (item sn i j) (item sr i j).
Proof.
  intros Hs Hl Hsl.
  destruct (calculate_ndvi_same_shape sn sr Hs) as (s & Es & Hss & His).
  destruct (calculate_ndvi_same_shape ln lr Hl) as (l & El & Hls & Hil).
  unfold fuse_gap_fill. rewrite Es, El. cbn [bind].
  unfold np_where. cbn [np_not np_isnan bshape].
  rewrite broadcast_shape_same. cbn [bind].
  replace (shape l) with (shape s) by congruence.
  rewrite broadcast_shape_same. cbn [bind].
  eexists. split; [reflexivity|].
  intros i j Hi Hj. cbn [item]. unfold bbget, bget.
  cbn [np_not np_isnan bshape bitem].
  rewrite Hss. rewrite !(bidx_lt _ i), !(bidx_lt _ j) by assumption.
  rewrite (His i j Hi Hj), ndvi1_not_nan. reflexivity.
Qed.

Lemma fuse_gap_fill_is_primary_witness :
  exists fused,
    fuse_gap_fill (Grids.row float64_t [NaN]) (Grids.row float64_t [fin (1 # 10)])
                  (Grids.row float64_t [fin (3 # 5)]) (Grids.row float64_t [fin (1 # 5)])
      = Ok fused /\
    item fused 0 0 = ndvi1 NaN (fin (1 # 10)).
Proof.
  destruct (fuse_gap_fill_is_primary
              (Grids.row float64_t [NaN]) (Grids.row float64_t [fin (1 # 10)])
              (Grids.row float64_t [fin (3 # 5)]) (Grids.row float64_t [fin (1 # 5)])
              eq_refl eq_refl eq_refl) as (fused & Hf & H).
  exists fused. split; [exact Hf|]. apply (H 0%nat 0%nat); cbn; lia.
Defined.

(** C1.  A pixel whose Sentinel NIR is NaN (masked) while Landsat is clear:
    the docstring of [fuse_gap_fill] promises the Landsat NDVI (1/2) there,
    the function returns 0, the NaN of the primary index having been
    replaced by [calculate_ndvi] before the validity test. *)
Theorem fuse_gap_fill_masked_pixel_not_filled :
  exists fused landsat,
    fuse_gap_fill (Grids.row float64_t [NaN]) (Grids.row float64_t [fin (1 # 10)])
                  (Grids.row float64_t [fin (3 # 5)]) (Grids.row float64_t [fin (1 # 5)])
      = Ok fused /\
    calculate_ndvi (Grids.row float64_t [fin (3 # 5)]) (Grids.row float64_t [fin (1 # 5)])
      = Ok landsat /\
    feqb (item landsat 0 0) (fin (1 # 2)) = true /\
    feqb (item fused 0 0) fzero = true /\
    feqb (item fused 0 0) (item landsat 0 0) = false.
Proof.
  eexists. eexists. split; [reflexivity|]. split; [reflexivity|].
  repeat split; vm_compute; reflexivity.
Qed.

(** C2.  [compute_ndvi] on a tensor whose first pixel has a NaN NIR and
    whose second pixel has NIR 3 and red -1: the NaN is returned as it is and
    the second index is 2, outside [[-1, 1]], although the docstring
    announces values from -1 to 1 and [calculate_ndvi] clamps both. *)
Theorem compute_ndvi_unclamped :
  exists r,
    GeeFusion.compute_ndvi
      (Grids.nir_red_tensor (Grids.row float64_t [NaN; fin 3])
                            (Grids.row float64_t [fin 1; fin (- 1)])) 6 2 = Ok r /\
    item r 0 0 = NaN /\
    feqb (item r 0 1) (fin 2) = true /\
    fleb (item r 0 1) fone = false.
Proof.
  eexists. split; [reflexivity|]. repeat split; vm_compute; reflexivity.
Qed.

End IndexSpec.

(* ===================================================================== *)
(** * Properties of the band compositor                                    *)
(* ===================================================================== *)

Module CompositorSpec.
Import Numpy Analysis Notions ArrayFacts.

Lemma forallb_shape a rest :
  forallb (fun b => shape_eqb (shape b) (shape a)) rest = true <->
  Forall (fun b => shape b = shape a) rest.
Proof.
  rewrite forallb_forall, List.Forall_forall. split; intros H b Hb.
  - apply shape_eqb_eq, H, Hb.
  - apply shape_eqb_eq, H, Hb.
Qed.

Lemma np_stack_ok a rest :
  Forall (fun b => shape b = shape a) rest ->
  np_stack (a :: rest) = Ok (map (retag (common_dtype (a :: rest))) (a :: rest)).
Proof.
  intros H. unfold np_stack. now rewrite (proj2 (forallb_shape a rest) H).
Qed.

Lemma column_retag d images i j :
  column (map (retag d) images) i j = column images i j.
Proof.
  unfold column. rewrite map_map. reflexivity.
Qed.

(** Scenario B: the mean of 10 and 20 is 15, the median of 10, 20, 30 is
    20, in any order. *)
Example mean1_10_20 : feqb (mean1 [of_Z 10; of_Z 20]) (of_Z 15) = true.
Proof. reflexivity. Qed.

Example median1_30_10_20 : feqb (median1 [of_Z 30; of_Z 10; of_Z 20]) (of_Z 20) = true.
Proof. reflexivity. Qed.

(** ** Integer stacks: the composite is cast back *)

Lemma fuse_mean_ok img0 rest :
  Forall (fun b => shape b = shape img0) rest ->
  exists r, fuse_mean (img0 :: rest) = Ok r /\ dt r = dt img0 /\
            shape r = shape img0 /\
            forall i j, item r i j = cast (dt img0) (mean1 (column (img0 :: rest) i j)).
Proof.
  intros H. unfold fuse_mean. rewrite (np_stack_ok _ _ H). cbn [bind].
  eexists. repeat split. intros i j. cbn [astype reduce0 item].
  now rewrite column_retag.
Qed.

Lemma fuse_median_ok img0 rest :
  Forall (fun b => shape b = shape img0) rest ->
  exists r, fuse_median (img0 :: rest) = Ok r /\ dt r = dt img0 /\
            shape r = shape img0 /\
            forall i j, item r i j = cast (dt img0) (median1 (column (img0 :: rest) i j)).
Proof.
  intros H. unfold fuse_median. rewrite (np_stack_ok _ _ H). cbn [bind].
  eexists. repeat split. intros i j. cbn [astype reduce0 item].
  now rewrite column_retag.
Qed.

(** C10.  On a stack whose first grid is int64, [fuse_mean] and
    [fuse_median] return an int64 grid holding, at every pixel whose [n]
    observations are integers of magnitude at most [2 ^ 52 / n] (where the
    binary64 reduction of numpy is exact), the mean (the median) of the
    column truncated toward zero; on the two constant grids 10 and 15 both
    return 12, while the mean is 25/2. *)
Theorem fuse_mean_median_truncate :
  (forall img0 rest,
     dt img0 = int64 ->
     Forall (fun b => shape b = shape img0) rest ->
     exists m d,
       fuse_mean (img0 :: rest) = Ok m /\ fuse_median (img0 :: rest) = Ok d /\
       dt m = int64 /\ dt d = int64 /\
       forall i j,
         Forall (int_within (2 ^ 52 / Z.of_nat (length (img0 :: rest))))
                (column (img0 :: rest) i j) ->
         item m i j = of_Z (to_int64 (mean1 (column (img0 :: rest) i j))) /\
         item d i j = of_Z (to_int64 (median1 (column (img0 :: rest) i j)))) /\
  (exists m d,
     fuse_mean [Grids.full int64 4 4 (of_Z 10); Grids.full int64 4 4 (of_Z 15)] = Ok m /\
     fuse_median [Grids.full int64 4 4 (of_Z 10); Grids.full int64 4 4 (of_Z 15)] = Ok d /\
     feqb (item m 0 0) (of_Z 12) = true /\
     feqb (item d 0 0) (of_Z 12) = true /\
     feqb (mean1 [of_Z 10; of_Z 15]) (fin (25 # 2)) = true /\
     feqb (item m 0 0) (mean1 [of_Z 10; of_Z 15]) = false).
Proof.
  split.
  - intros img0 rest Hd Hs.
    destruct (fuse_mean_ok img0 rest Hs) as (m & Em & Hdm & _ & Hm).
    destruct (fuse_median_ok img0 rest Hs) as (d & Ed & Hdd & _ & Hmd).
    exists m, d. rewrite Hd in *. repeat split; try assumption.
    + apply Hm.
    + apply Hmd.
  - eexists. eexists. split; [reflexivity|]. split; [reflexivity|].
    repeat split; vm_compute; reflexivity.
Qed.

Lemma fuse_mean_median_truncate_witness :
  exists m d,
    fuse_mean [Grids.full int64 1 1 (of_Z (- 10)); Grids.full float64_t 1 1 (of_Z (- 15))] = Ok m /\
    fuse_median [Grids.full int64 1 1 (of_Z (- 10)); Grids.full float64_t 1 1 (of_Z (- 15))] = Ok d /\
    feqb (item m 0 0) (of_Z (- 12)) = true /\
    feqb (item d 0 0) (of_Z (- 12)) = true.
Proof.
  assert (Hs : Forall (fun b => shape b = shape (Grids.full int64 1 1 (of_Z (- 10))))
                      [Grids.full float64_t 1 1 (of_Z (- 15))]).
  { constructor; [reflexivity | constructor]. }
  destruct (proj1 fuse_mean_median_truncate
              (Grids.full int64 1 1 (of_Z (- 10)))
              [Grids.full float64_t 1 1 (of_Z (- 15))] eq_refl Hs)
    as (m & d & Em & Ed & _ & _ & H).
  exists m, d. split; [exact Em|]. split; [exact Ed|].
  destruct (H 0%nat 0%nat) as [-> ->].
  - constructor; [exists (- 10)%Z; split; [reflexivity | vm_compute; discriminate]|].
    constructor; [exists (- 15)%Z; split; [reflexivity | vm_compute; discriminate]|].
    constructor.
  - split; vm_compute; reflexivity.
Defined.

(** ** Best-pixel selection *)

Section BestPixel.

Variables (images stack : list ndarray) (h w i j : nat).
Hypothesis Himages : Forall (fun a => shape a = (h, w)) images.
Hypothesis Hi : (i < h)%nat.
Hypothesis Hj : (j < w)%nat.


End BestPixel.

Lemma mean1_single v : isnan v = false -> mean1 [v] = v.
Proof.
  destruct v as [| s | q]; [discriminate | |]; intros _.
  - reflexivity.
  - unfold mean1. cbn [fold_left length].
    change (fadd fzero (Finite q)) with (Finite (0 + q)%Qc).
    change (fdiv (Finite (0 + q)%Qc) (of_Z (Z.of_nat 1)))
      with (Finite ((0 + q) / Q2Qc (inject_Z 1))%Qc).
    f_equal. change (Q2Qc (inject_Z 1)) with 1%Qc. field.
    discriminate.
Qed.

(** The median of a single observation is that observation. *)
Lemma median1_single v : median1 [v] = v.
Proof.
  unfold median1. cbn [existsb]. rewrite orb_false_r.
  destruct (isnan v) eqn:E.
  - destruct v; try discriminate E. reflexivity.
  - cbn. now apply mean1_single.
Qed.







(** Two grids of differing shapes in the list: the shape test against the
    first grid fails. *)
Lemma mismatch_forallb img0 rest a b :
  In a (img0 :: rest) -> In b (img0 :: rest) -> shape a <> shape b ->
  forallb (fun c => shape_eqb (shape c) (shape img0)) rest = false.
Proof.
  intros Ha Hb Hne.
  destruct (forallb _ rest) eqn:E; [exfalso | reflexivity].
  apply forallb_shape in E. rewrite List.Forall_forall in E.
  assert (H : forall c, In c (img0 :: rest) -> shape c = shape img0).
  { intros c [<- | Hc]; [reflexivity | now apply E]. }
  apply Hne. rewrite (H a Ha), (H b Hb). reflexivity.
Qed.

(** C6.  A stack that holds two grids of differing shapes is rejected by
    each of the three reducers: [fuse_mean] and [fuse_median] raise the
    [ValueError] of [np.stack], [fuse_best_pixel] raises its own
    [ValueError], with or without quality masks; none returns a composite. *)
Theorem reducers_reject_shape_mismatch images quality_masks a b :
  In a images -> In b images -> shape a <> shape b ->
  fuse_mean images = Raise stack_mismatch /\
  fuse_median images = Raise stack_mismatch /\
  fuse_best_pixel images quality_masks = Raise images_mismatch.
Proof.
  intros Ha Hb Hne. destruct images as [| img0 rest]; [destruct Ha|].
  pose proof (mismatch_forallb img0 rest a b Ha Hb Hne) as E.
  unfold fuse_mean, fuse_median, fuse_best_pixel, np_stack. rewrite E. cbn.
  repeat split.
  destruct rest as [| img1 rest']; [|reflexivity].
  exfalso. apply Hne. destruct Ha as [<- | []], Hb as [<- | []]. reflexivity.
Qed.

Lemma reducers_reject_shape_mismatch_witness :
  fuse_mean [Grids.full int64 4 4 (of_Z 10); Grids.full int64 4 5 (of_Z 20)]
    = Raise stack_mismatch /\
  fuse_median [Grids.full int64 4 4 (of_Z 10); Grids.full int64 4 5 (of_Z 20)]
    = Raise stack_mismatch /\
  fuse_best_pixel [Grids.full int64 4 4 (of_Z 10); Grids.full int64 4 5 (of_Z 20)] None
    = Raise images_mismatch.
Proof.
  apply (reducers_reject_shape_mismatch _ None
           (Grids.full int64 4 4 (of_Z 10)) (Grids.full int64 4 5 (of_Z 20))).
  - left; reflexivity.
  - right; left; reflexivity.
  - cbn. discriminate.
Defined.

End CompositorSpec.

(* ===================================================================== *)
(** * Properties of resampling                                             *)
(* ===================================================================== *)

Module ResampleSpec.
Import Numpy Analysis GeeFusion Notions ArrayFacts.

(** C9.  [resample_array] with method ['bicubic'] is [resample_array] with
    method ['bilinear'] on every input: same array, or same exception. *)
Theorem resample_array_bicubic_is_bilinear array source_resolution target_resolution :
  resample_array array source_resolution target_resolution "bicubic" =
  resample_array array source_resolution target_resolution "bilinear".
Proof.
  unfold resample_array.
  destruct (feqb source_resolution target_resolution); [reflexivity|].
  destruct (py_truediv source_resolution target_resolution) as [scale|e];
    [cbn [bind] | reflexivity].
  destruct (py_int _) as [new_height|e]; [cbn [bind] | reflexivity].
  destruct (py_int _) as [new_width|e]; [cbn [bind] | reflexivity].
  reflexivity.
Qed.

(** Truncation is the floor on non-negative rationals. *)
Lemma Qtrunc_floor q : (0 <= q)%Q -> Qtrunc q = Qfloor q.
Proof.
  destruct q as [n d]. unfold Qle, Qtrunc, Qfloor. cbn. intros H.
  apply Z.quot_div_nonneg; lia.
Qed.

Lemma this_of_Z z : (this (Q2Qc (inject_Z z)) == inject_Z z)%Q.
Proof. cbn. apply Qred_correct. Qed.

(** The index computed for output position [i] is the integer quotient
    [i * n / new_n]. *)
Lemma nearest_index_div n new_n i :
  (0 < n)%nat ->
  (0 < new_n)%Z -> (Z.of_nat i < new_n)%Z -> (Z.of_nat n <= int64_max)%Z ->
  nearest_index n new_n i = (Z.of_nat i * Z.of_nat n / new_n)%Z.
Proof.
  intros Hn0 Hpos Hi Hn. unfold nearest_index, of_Z, fin, fdiv.
  set (p := (Z.of_nat i * Z.of_nat n)%Z).
  assert (Hb : Qeq_bool (Q2Qc (inject_Z new_n)) 0 = false).
  { apply not_true_is_false. intros H. apply Qeq_bool_eq in H.
    rewrite this_of_Z in H. unfold Qeq in H. cbn in H. lia. }
  rewrite Hb. unfold to_int64.
  assert (Hq : (this (Q2Qc (inject_Z p) / Q2Qc (inject_Z new_n))%Qc
                == inject_Z p / inject_Z new_n)%Q).
  { unfold Qcdiv, Qcmult, Qcinv. cbn [this Q2Qc].
    rewrite !Qred_correct. reflexivity. }
  assert (Hp : (0 <= p)%Z) by (unfold p; lia).
  assert (H0 : (0 <= inject_Z p / inject_Z new_n)%Q).
  { apply Qle_shift_div_l.
    - unfold Qlt. cbn. lia.
    - unfold Qle. cbn. lia. }
  rewrite Qtrunc_floor by (rewrite Hq; exact H0).
  assert (Hfl : Qfloor (Q2Qc (inject_Z p) / Q2Qc (inject_Z new_n))%Qc = (p / new_n)%Z).
  { rewrite Hq. symmetry. apply Zdiv_Qdiv. }
  rewrite Hfl.
  assert (Hlo : (0 <= p / new_n)%Z) by (apply Z.div_pos; lia).
  assert (Hhi : (p / new_n < Z.of_nat n)%Z).
  { apply Z.div_lt_upper_bound; [lia|]. unfold p. nia. }
  replace ((int64_min <=? p / new_n)%Z && (p / new_n <=? int64_max)%Z) with true;
    [reflexivity|].
  symmetry. apply andb_true_iff. split; [apply Z.leb_le | apply Z.leb_le].
  - unfold int64_min. lia.
  - lia.
Qed.

Lemma nearest_index_bound n new_n i :
  (0 < n)%nat ->
  (0 < new_n)%Z -> (Z.of_nat i < new_n)%Z -> (Z.of_nat n <= int64_max)%Z ->
  (0 <= nearest_index n new_n i < Z.of_nat n)%Z.
Proof.
  intros Hn0 Hpos Hi Hn. rewrite nearest_index_div by assumption. split.
  - apply Z.div_pos; lia.
  - apply Z.div_lt_upper_bound; [lia | nia].
Qed.

Lemma check_indices_ok n zs :
  (forall z, In z zs -> (0 <= z < Z.of_nat n)%Z) ->
  check_indices n zs = Ok (map Z.to_nat zs).
Proof.
  induction zs as [| z zs IH]; intros H; cbn; [reflexivity|].
  assert (Hz := H z (or_introl eq_refl)).
  replace z with (Z.of_nat (Z.to_nat z)) at 1 by lia.
  rewrite norm_index_ok by lia. cbn [bind].
  rewrite IH by (intros z' Hz'; apply H; now right). reflexivity.
Qed.

Lemma nth_map_seq {A} (f : nat -> A) n i d :
  (i < n)%nat -> nth i (map f (seq 0 n)) d = f i.
Proof.
  intros H. rewrite (nth_indep _ d (f 0%nat)) by (rewrite length_map, length_seq; exact H).
  rewrite map_nth, seq_nth by exact H. reflexivity.
Qed.

Lemma edge_lt n z : (0 < n)%nat -> (edge n z < n)%nat.
Proof. intros H. unfold edge. lia. Qed.

(** [_resample_nearest] on a non-empty grid and a positive target shape. *)
Lemma _resample_nearest_ok array (th tw : nat) :
  (0 < fst (shape array))%nat -> (0 < snd (shape array))%nat ->
  (0 < th)%nat -> (0 < tw)%nat ->
  (Z.of_nat (fst (shape array)) <= int64_max)%Z ->
  (Z.of_nat (snd (shape array)) <= int64_max)%Z ->
  exists r, _resample_nearest array (Z.of_nat th) (Z.of_nat tw) = Ok r /\
    shape r = (th, tw) /\
    forall i j, (i < th)%nat -> (j < tw)%nat ->
      item r i j =
      item array (Z.to_nat (nearest_index (fst (shape array)) (Z.of_nat th) i))
                 (Z.to_nat (nearest_index (snd (shape array)) (Z.of_nat tw) j)).
Proof.
  intros Hh Hw Hth Htw Bh Bw. unfold _resample_nearest, take_ix.
  destruct (shape array) as [h w] eqn:Es. cbn [fst snd] in *.
  rewrite !Nat2Z.id.
  rewrite (check_indices_ok h).
  2:{ intros z Hz. apply in_map_iff in Hz as (i & <- & Hi). apply in_seq in Hi.
      apply nearest_index_bound; lia. }
  cbn [bind].
  rewrite (check_indices_ok w).
  2:{ intros z Hz. apply in_map_iff in Hz as (j & <- & Hj). apply in_seq in Hj.
      apply nearest_index_bound; lia. }
  cbn [bind]. eexists. split; [reflexivity|]. split.
  - cbn [shape]. now rewrite !length_map, !length_seq.
  - intros i j Hi Hj. cbn [item]. rewrite !map_map.
    now rewrite !nth_map_seq by assumption.
Qed.



(** The multi-band path: every band of the result holds pixels of the
    same band of the source. *)
Lemma resample_to_target3_nearest source (th tw : nat) :
  (0 < fst (tshape source))%nat -> (0 < snd (tshape source))%nat ->
  exists r, resample_to_target3 source (th, tw) "nearest" = Ok r /\
    tshape r = (th, tw) /\ tbands r = tbands source /\
    forall c i j, (i < th)%nat -> (j < tw)%nat ->
      exists y x, (y < fst (tshape source))%nat /\ (x < snd (tshape source))%nat /\
        titem r c i j = titem source c y x.
Proof.
  intros Hh Hw. unfold resample_to_target3.
  destruct (shape_eqb (tshape source) (th, tw)) eqn:E.
  - apply shape_eqb_eq in E. exists source. split; [reflexivity|].
    split; [exact E|]. split; [reflexivity|]. intros c i j Hi Hj. exists i, j.
    rewrite E. cbn [fst snd]. auto.
  - unfold int_truediv. cbn [fst snd].
    destruct (Nat.eqb_spec (fst (tshape source)) 0); [lia|].
    destruct (Nat.eqb_spec (snd (tshape source)) 0); [lia|].
    cbn [bind String.eqb]. eexists. split; [reflexivity|].
    split; [reflexivity|]. split; [reflexivity|].
    intros c i j Hi Hj. cbn [titem]. unfold ndimage_zoom. cbn [shape].
    destruct (tshape source) as [h w]. cbn [fst snd item] in *.
    eexists _, _. split; [|split; [|reflexivity]]; now apply edge_lt.
Qed.

End ResampleSpec.

(* ===================================================================== *)
(** * Properties of the geographic window                                  *)
(* ===================================================================== *)

Module GeoWindowSpec.
Import GeoWindow.
Local Open Scope R_scope.

Lemma truediv_ok x y : y <> 0 -> truediv x y = Ok (x / y).
Proof.
  intros H. unfold truediv. destruct (Req_dec_T y 0); [contradiction | reflexivity].
Qed.








End GeoWindowSpec.

(* ===================================================================== *)
(** * Properties of the cache sweep                                        *)
(* ===================================================================== *)

Module CacheSpec.
Import Cache.
Local Open Scope Z_scope.

Section Sweep.

Variable fromisoformat : string -> option datetime.

Lemma dir_size_delete (m : gmap string Z) k size :
  m !! k = Some size -> dir_size m = size + dir_size (delete k m).
Proof.
  intros H. unfold dir_size.
  apply (map_fold_delete_L (fun _ size acc => size + acc) 0 k size m); [|exact H].
  intros. lia.
Qed.

(** Removing the three files of a key: they are gone, every other file is
    as before, and the counter grew by the space they took. *)
Lemma remove_files_lookup key (fs : subdir -> gmap string Z) freed d k :
  (fold_left (remove_file key) [full_dir; thumb_dir; preview_dir] (fs, freed)).1 d !! k
  = if decide (k = key) then None else fs d !! k.
Proof.
  cbn [fold_left]. unfold remove_file. cbn [fst snd].
  destruct (fs full_dir !! key) eqn:E1; cbn [fst snd];
    repeat (destruct (decide _); try discriminate; cbn [fst snd]);
    destruct (fs thumb_dir !! key) eqn:E2; cbn [fst snd];
    repeat (destruct (decide _); try discriminate; cbn [fst snd]);
    destruct (fs preview_dir !! key) eqn:E3; cbn [fst snd];
    destruct d;
    repeat (destruct (decide _); try discriminate; try congruence; subst;
            cbn [fst snd]);
    rewrite ?lookup_delete_eq, ?lookup_delete_ne by congruence;
    congruence.
Qed.

Lemma remove_files_usage key (fs : subdir -> gmap string Z) freed :
  let acc := fold_left (remove_file key) [full_dir; thumb_dir; preview_dir] (fs, freed) in
  disk_usage acc.1 + acc.2 = disk_usage fs + freed.
Proof.
  cbn [fold_left]. unfold remove_file, disk_usage. cbn [fst snd].
  destruct (fs full_dir !! key) eqn:E1; cbn [fst snd];
    repeat (destruct (decide _); try congruence; cbn [fst snd]);
    destruct (fs thumb_dir !! key) eqn:E2; cbn [fst snd];
    repeat (destruct (decide _); try congruence; cbn [fst snd]);
    destruct (fs preview_dir !! key) eqn:E3; cbn [fst snd];
    repeat (destruct (decide _); try congruence; cbn [fst snd]);
    try pose proof (dir_size_delete _ _ _ E1);
    try pose proof (dir_size_delete _ _ _ E2);
    try pose proof (dir_size_delete _ _ _ E3);
    lia.
Qed.

(** The second loop, over any list of distinct keys of the index. *)
Lemma sweep_spec ks : forall s,
  NoDup ks ->
  (forall k, k ∈ ks -> is_Some (sw_metadata s !! k)) ->
  let s' := fold_left remove_item ks s in
  (forall d k, sw_files s' d !! k
               = if decide (k ∈ ks) then None else sw_files s d !! k) /\
  (forall k, sw_metadata s' !! k
             = if decide (k ∈ ks) then None else sw_metadata s !! k) /\
  sw_items_removed s' = sw_items_removed s + Z.of_nat (length ks) /\
  Z.of_nat (size (sw_metadata s')) + Z.of_nat (length ks)
    = Z.of_nat (size (sw_metadata s)) /\
  disk_usage (sw_files s') + sw_space_freed s'
    = disk_usage (sw_files s) + sw_space_freed s.
Proof.
  induction ks as [| key ks IH]; intros s Hnd Hin; cbn [fold_left].
  - repeat split; intros; try (destruct (decide _) as [H|]; [inversion H | reflexivity]);
      cbn [length]; lia.
  - apply NoDup_cons in Hnd as [Hnotin Hnd].
    destruct (Hin key) as [m Hm]; [left|].
    pose proof (remove_files_lookup key (sw_files s) (sw_space_freed s)) as Hfiles.
    pose proof (remove_files_usage key (sw_files s) (sw_space_freed s)) as Husage.
    cbn zeta in Husage.
    set (s1 := remove_item s key).
    assert (E1 : s1 = mk_sweep
                   (fold_left (remove_file key) [full_dir; thumb_dir; preview_dir]
                      (sw_files s, sw_space_freed s)).1
                   (delete key (sw_metadata s))
                   (sw_items_removed s + 1)
                   (fold_left (remove_file key) [full_dir; thumb_dir; preview_dir]
                      (sw_files s, sw_space_freed s)).2).
    { unfold s1, remove_item. now rewrite Hm. }
    destruct (IH s1 Hnd) as (Hf & Hmd & Hn & Hsz & Hu).
    { intros k Hk. rewrite E1. cbn [sw_metadata].
      rewrite lookup_delete_ne; [apply Hin; now right|].
      intros ->. contradiction. }
    assert (Ef : sw_files s1 = (fold_left (remove_file key)
                  [full_dir; thumb_dir; preview_dir]
                  (sw_files s, sw_space_freed s)).1) by now rewrite E1.
    assert (Em : sw_metadata s1 = delete key (sw_metadata s)) by now rewrite E1.
    assert (En : sw_items_removed s1 = sw_items_removed s + 1) by now rewrite E1.
    assert (Eu : sw_space_freed s1 = (fold_left (remove_file key)
                  [full_dir; thumb_dir; preview_dir]
                  (sw_files s, sw_space_freed s)).2) by now rewrite E1.
    clearbody s1. clear E1.
    rewrite Ef in Hf, Hu. rewrite Em in Hmd, Hsz. rewrite En in Hn. rewrite Eu in Hu.
    repeat split.
    + intros d k. rewrite Hf, Hfiles.
      destruct (decide (k ∈ ks)) as [Hk|Hk], (decide (k = key)) as [->|Hne];
        destruct (decide (_ ∈ key :: ks)) as [H|H]; try reflexivity;
        try contradiction.
      * exfalso. apply H. now right.
      * exfalso. apply H. left.
      * apply elem_of_cons in H as [->|H]; contradiction.
    + intros k. rewrite Hmd.
      destruct (decide (k ∈ ks)) as [Hk|Hk], (decide (k = key)) as [->|Hne];
        destruct (decide (_ ∈ key :: ks)) as [H|H]; try reflexivity;
        try contradiction.
      * exfalso. apply H. now right.
      * apply lookup_delete_eq.
      * exfalso. apply H. left.
      * apply elem_of_cons in H as [->|H]; contradiction.
      * now rewrite lookup_delete_ne.
    + rewrite Hn. cbn [length]. lia.
    + rewrite map_size_delete_Some in Hsz by eauto.
      assert (size (sw_metadata s) <> 0%nat).
      { intros H0. apply map_size_empty_iff in H0. rewrite H0 in Hm.
        rewrite lookup_empty in Hm. discriminate. }
      cbn [length]. lia.
    + lia.
Qed.

Lemma keys_to_remove_elem md cutoff_time k :
  k ∈ keys_to_remove fromisoformat md cutoff_time <->
  is_old fromisoformat md cutoff_time k.
Proof.
  unfold keys_to_remove, is_old. rewrite list_elem_of_fmap. split.
  - intros ([k' m] & -> & H). apply list_elem_of_filter in H as [HP Hin].
    apply elem_of_map_to_list in Hin. exists m. auto.
  - intros (m & Hm & He). exists (k, m). split; [reflexivity|].
    apply list_elem_of_filter. split; [exact He|].
    now apply elem_of_map_to_list.
Qed.

Lemma keys_to_remove_NoDup md cutoff_time :
  NoDup (keys_to_remove fromisoformat md cutoff_time).
Proof.
  unfold keys_to_remove. apply NoDup_fmap_fst.
  - intros k m1 m2 H1 H2.
    apply list_elem_of_filter in H1 as [_ H1], H2 as [_ H2].
    apply elem_of_map_to_list in H1, H2. congruence.
  - apply NoDup_filter, NoDup_map_to_list.
Qed.



Lemma cutoff_inv now max_age_days c :
  cutoff now max_age_days = Ok c ->
  c = now - max_age_days * microseconds_per_day.
Proof.
  unfold cutoff. destruct (_ <? _); [discriminate|].
  destruct (_ && _); [congruence | discriminate].
Qed.


End Sweep.



End CacheSpec.

(* ===================================================================== *)
(** * Further properties of the spectral indices                           *)
(* ===================================================================== *)

Module IndexExtra.
Import Numpy Analysis GeeFusion Notions ArrayFacts IndexSpec.

Lemma this_opp (q : Qc) : (this (- q)%Qc == - this q)%Q.
Proof. cbn. apply Qred_correct. Qed.

Lemma fopp_zero : fopp fzero = fzero.
Proof. reflexivity. Qed.

(** Clipping to [[-1, 1]] commutes with negation. *)
Lemma clip_opp (q : Qc) :
  clip1 (fopp fone) fone (Finite (- q)%Qc) = fopp (clip1 (fopp fone) fone (Finite q)).
Proof.
  unfold clip1, maximum, minimum, fone, fopp, fltb.
  cbn -[Qccompare Qcopp Q2Qc Qeq_bool]. unfold Qccompare. qlits.
  destruct (Qcompare_spec q (- 1 # 1)) as [H1|H1|H1];
    destruct (Qcompare_spec (- q)%Qc (- 1 # 1)) as [H2|H2|H2];
    cbn -[Qccompare Qcopp Q2Qc Qeq_bool]; unfold Qccompare; qlits;
    repeat match goal with
           | |- context [Qcompare ?a ?b] => destruct (Qcompare_spec a b)
           end;
    rewrite ?this_opp in *; qlits;
    try reflexivity; try (exfalso; qlra);
    try (f_equal; apply Qc_is_canon; cbn; rewrite ?Qred_correct; qlra).
Qed.

(** Swapping the two bands negates the index of the pixel. *)
Lemma ndvi1_swap a b : ndvi1 b a = fopp (ndvi1 a b).
Proof.
  unfold ndvi1.
  destruct a as [| s | a], b as [| t | b]; try reflexivity;
    try (destruct s; reflexivity); try (destruct t; reflexivity);
    try (destruct s, t; reflexivity).
  change (fadd (Finite a) (Finite b)) with (Finite (a + b)).
  change (fadd (Finite b) (Finite a)) with (Finite (b + a)).
  change (fsub (Finite a) (Finite b)) with (Finite (a + - b)).
  change (fsub (Finite b) (Finite a)) with (Finite (b + - a)).
  replace (b + a)%Qc with (a + b)%Qc by ring.
  unfold fdiv. destruct (Qeq_bool (a + b)%Qc 0%Q) eqn:E.
  - assert (Hz : forall x : float64,
               (x = NaN \/ x = Infty true \/ x = Infty false) ->
               clip1 (fopp fone) fone (nan_to_num1 fzero fzero fzero x) = fzero).
    { intros x [-> | [-> | ->]]; reflexivity. }
    rewrite !Hz.
    + symmetry. apply fopp_zero.
    + destruct (_ ?= _)%Qc; auto.
    + destruct (_ ?= _)%Qc; auto.
  - cbn [nan_to_num1].
    replace ((b + - a) / (a + b))%Qc with (- ((a + - b) / (a + b)))%Qc.
    + apply clip_opp.
    + field. intros H. rewrite H in E. discriminate E.
Qed.

(** X1.  [calculate_ndvi] with its two bands swapped is the negated
    index, at every pixel. *)
Theorem calculate_ndvi_swap nir red :
  shape nir = shape red ->
  exists r r', calculate_ndvi nir red = Ok r /\ calculate_ndvi red nir = Ok r' /\
    forall i j, (i < fst (shape nir))%nat -> (j < snd (shape nir))%nat ->
      item r' i j = fopp (item r i j).
Proof.
  intros Hs.
  destruct (calculate_ndvi_same_shape nir red Hs) as (r & Er & _ & Hr).
  destruct (calculate_ndvi_same_shape red nir (eq_sym Hs)) as (r' & Er' & _ & Hr').
  exists r, r'. split; [exact Er|]. split; [exact Er'|].
  intros i j Hi Hj. rewrite Hr by assumption.
  rewrite Hr' by (rewrite <- Hs; assumption). apply ndvi1_swap.
Qed.

Lemma calculate_ndvi_swap_witness :
  exists r r',
    calculate_ndvi (Grids.row float64_t [fin 3; fin 0]) (Grids.row float64_t [fin 1; fin 0]) = Ok r /\
    calculate_ndvi (Grids.row float64_t [fin 1; fin 0]) (Grids.row float64_t [fin 3; fin 0]) = Ok r' /\
    item r' 0 0 = fopp (item r 0 0) /\ item r' 0 1 = fopp (item r 0 1).
Proof.
  destruct (calculate_ndvi_swap (Grids.row float64_t [fin 3; fin 0])
              (Grids.row float64_t [fin 1; fin 0]) eq_refl) as (r & r' & Er & Er' & H).
  exists r, r'. split; [exact Er|]. split; [exact Er'|].
  split; apply H; cbn; lia.
Defined.

(** X2.  [calculate_ndwi] returns, on same-shape bands, a grid within
    [[-1, 1]] without NaN, 0 where [green + nir == 0], and equal to the
    negated [calculate_ndvi] of the pair (nir, green). *)
Theorem calculate_ndwi_safe green nir :
  shape green = shape nir ->
  exists w v, calculate_ndwi green nir = Ok w /\ calculate_ndvi nir green = Ok v /\
    forall i j, (i < fst (shape green))%nat -> (j < snd (shape green))%nat ->
      fleb (fopp fone) (item w i j) = true /\
      fleb (item w i j) fone = true /\
      isnan (item w i j) = false /\
      (feqb (fadd (item green i j) (item nir i j)) fzero = true ->
       feqb (item w i j) fzero = true) /\
      item w i j = fopp (item v i j).
Proof.
  intros Hs. change (calculate_ndwi green nir) with (calculate_ndvi green nir).
  destruct (calculate_ndvi_same_shape green nir Hs) as (w & Ew & _ & Hw).
  destruct (calculate_ndvi_same_shape nir green (eq_sym Hs)) as (v & Ev & _ & Hv).
  exists w, v. split; [exact Ew|]. split; [exact Ev|].
  intros i j Hi Hj. rewrite Hw by assumption.
  rewrite Hv by (rewrite <- Hs; assumption).
  repeat split; try apply ndvi1_range.
  - apply ndvi1_not_nan.
  - apply ndvi1_zero_denominator.
  - apply ndvi1_swap.
Qed.

Lemma calculate_ndwi_safe_witness :
  exists w, calculate_ndwi (Grids.row int64 [of_Z 2; of_Z 0]) (Grids.row int64 [of_Z 6; of_Z 0]) = Ok w /\
            feqb (item w 0 0) (fin (- 1 # 2)) = true /\
            feqb (item w 0 1) fzero = true.
Proof.
  destruct (calculate_ndwi_safe (Grids.row int64 [of_Z 2; of_Z 0])
              (Grids.row int64 [of_Z 6; of_Z 0]) eq_refl) as (w & v & Ew & Ev & H).
  exists w. split; [exact Ew|]. split.
  - inversion Ew; subst. vm_compute. reflexivity.
  - apply (H 0%nat 1%nat); cbn; [lia | lia | reflexivity].
Defined.

(** The guarded quotient of [compute_ndvi] and [compute_ndwi] at one
    pixel. *)
Lemma guarded_quotient_is_ndvi1 a b :
  nonneg a = true -> nonneg b = true ->
  (if fneb (fadd a b) fzero then fdiv (fsub a b) (fadd a b) else fzero) = ndvi1 a b.
Proof.
  destruct a as [| s | a], b as [| t | b]; try discriminate.
  cbn [nonneg]. intros Ha Hb. apply Qle_bool_imp_le in Ha, Hb.
  unfold ndvi1, fneb.
  change (fadd (Finite a) (Finite b)) with (Finite (a + b)).
  change (fsub (Finite a) (Finite b)) with (Finite (a + - b)).
  change (feqb (Finite (a + b)) fzero) with (Qeq_bool (a + b)%Qc 0%Q).
  unfold fdiv. destruct (Qeq_bool (a + b)%Qc 0%Q) eqn:E; cbn [negb].
  - destruct (_ ?= _)%Qc; reflexivity.
  - cbn [nan_to_num1]. apply Qeq_bool_neq in E.
    assert (Hs : (this (a + b)%Qc == this a + this b)%Q) by (cbn; apply Qred_correct).
    assert (Hpos : (0 < this a + this b)%Q).
    { rewrite Hs in E. destruct (Qlt_le_dec 0 (this a + this b)); [assumption|].
      exfalso. apply E. qlra. }
    assert (Hq : (this ((a + - b) / (a + b))%Qc == (this a - this b) / (this a + this b))%Q).
    { unfold Qcdiv, Qcmult, Qcinv, Qcplus, Qcopp. cbn [this Q2Qc].
      rewrite !Qred_correct. reflexivity. }
    assert (Hlo : (- 1 <= (this a - this b) / (this a + this b))%Q).
    { apply Qle_shift_div_l; [exact Hpos | qlra]. }
    assert (Hhi : ((this a - this b) / (this a + this b) <= 1)%Q).
    { apply Qle_shift_div_r; [exact Hpos | qlra]. }
    rewrite <- Hq in Hlo, Hhi.
    set (q := ((a + - b) / (a + b))%Qc) in *. clearbody q.
    unfold clip1, maximum, minimum, fone, fopp, fltb.
    cbn -[Qccompare Qcopp Q2Qc Qeq_bool]. unfold Qccompare. qlits.
    destruct (Qcompare_spec q (- 1 # 1)); cbn -[Qccompare Qcopp Q2Qc Qeq_bool];
      unfold Qccompare; qlits;
      repeat match goal with
             | |- context [Qcompare ?x ?y] => destruct (Qcompare_spec x y)
             end; try reflexivity; exfalso; qlra.
Qed.

Lemma band_shape t idx c : band t idx = Ok c -> shape c = tshape t.
Proof.
  unfold band. destruct (norm_index (tbands t) idx); [|discriminate].
  cbn. intros H. inversion H. reflexivity.
Qed.

(** X3.  On two bands of finite non-negative values [compute_ndvi] returns
    the grid that [calculate_ndvi] returns on them: its values lie within
    [[-1, 1]] and the clamping of [calculate_ndvi] changes nothing. *)
Theorem compute_ndvi_matches_calculate_ndvi t nir_idx red_idx nir red :
  band t nir_idx = Ok nir ->
  band t red_idx = Ok red ->
  (forall i j, (i < fst (tshape t))%nat -> (j < snd (tshape t))%nat ->
     nonneg (item nir i j) = true /\ nonneg (item red i j) = true) ->
  exists r r', compute_ndvi t nir_idx red_idx = Ok r /\ calculate_ndvi nir red = Ok r' /\
    shape r = tshape t /\ shape r' = tshape t /\
    forall i j, (i < fst (tshape t))%nat -> (j < snd (tshape t))%nat ->
      item r i j = item r' i j /\
      fleb (fopp fone) (item r i j) = true /\ fleb (item r i j) fone = true.
Proof.
  intros Ha Hb Hnonneg.
  pose proof (band_shape _ _ _ Ha) as Sa. pose proof (band_shape _ _ _ Hb) as Sb.
  destruct (calculate_ndvi_same_shape nir red (eq_trans Sa (eq_sym Sb)))
    as (r' & Er' & Hs' & Hr').
  unfold compute_ndvi. rewrite Ha, Hb. cbn [bind].
  unfold map2, np_where_scalar. cbn [astype shape np_ne_scalar bshape].
  rewrite Sa, Sb, broadcast_shape_same. cbn [bind shape].
  rewrite broadcast_shape_same. cbn [bind shape].
  rewrite broadcast_shape_same. cbn [bind].
  eexists. exists r'. split; [reflexivity|]. split; [exact Er'|].
  split; [reflexivity|]. split; [congruence|].
  intros i j Hi Hj. cbn [item]. unfold bbget, bget.
  cbn [np_ne_scalar bshape bitem astype shape item cast].
  rewrite Sa, Sb. rewrite !(bidx_lt _ i), !(bidx_lt _ j) by assumption.
  rewrite guarded_quotient_is_ndvi1 by now apply Hnonneg.
  rewrite Hr' by (rewrite Sa; assumption).
  split; [reflexivity | apply ndvi1_range].
Qed.

Lemma compute_ndvi_matches_calculate_ndvi_witness :
  exists r r',
    compute_ndvi (Grids.nir_red_tensor (Grids.row float64_t [fin 3; fin 0])
                                       (Grids.row float64_t [fin 1; fin 0])) 6 2 = Ok r /\
    calculate_ndvi (Grids.row float64_t [fin 3; fin 0])
                   (Grids.row float64_t [fin 1; fin 0]) = Ok r' /\
    item r 0 0 = item r' 0 0 /\ item r 0 1 = item r' 0 1.
Proof.
  destruct (compute_ndvi_matches_calculate_ndvi
              (Grids.nir_red_tensor (Grids.row float64_t [fin 3; fin 0])
                                    (Grids.row float64_t [fin 1; fin 0])) 6 2
              (Grids.row float64_t [fin 3; fin 0])
              (Grids.row float64_t [fin 1; fin 0]) eq_refl eq_refl)
    as (r & r' & Er & Er' & _ & _ & H).
  { intros i j Hi Hj. cbn in Hi, Hj.
    destruct j as [| [| j]]; [| | lia]; split; reflexivity. }
  exists r, r'. split; [exact Er|]. split; [exact Er'|].
  split; apply H; cbn; lia.
Defined.

(** X4.  The same for the water index: on finite non-negative bands
    [compute_ndwi] returns the grid of [calculate_ndwi]. *)
Theorem compute_ndwi_matches_calculate_ndwi t green_idx nir_idx green nir :
  band t green_idx = Ok green ->
  band t nir_idx = Ok nir ->
  (forall i j, (i < fst (tshape t))%nat -> (j < snd (tshape t))%nat ->
     nonneg (item green i j) = true /\ nonneg (item nir i j) = true) ->
  exists r r', compute_ndwi t green_idx nir_idx = Ok r /\
    calculate_ndwi green nir = Ok r' /\
    shape r = tshape t /\ shape r' = tshape t /\
    forall i j, (i < fst (tshape t))%nat -> (j < snd (tshape t))%nat ->
      item r i j = item r' i j /\
      fleb (fopp fone) (item r i j) = true /\ fleb (item r i j) fone = true.
Proof.
  intros Ha Hb Hnonneg.
  pose proof (band_shape _ _ _ Ha) as Sa. pose proof (band_shape _ _ _ Hb) as Sb.
  change (calculate_ndwi green nir) with (calculate_ndvi green nir).
  destruct (calculate_ndvi_same_shape green nir (eq_trans Sa (eq_sym Sb)))
    as (r' & Er' & Hs' & Hr').
  unfold compute_ndwi. rewrite Ha, Hb. cbn [bind].
  unfold map2, np_where_scalar. cbn [astype shape np_ne_scalar bshape].
  rewrite Sa, Sb, broadcast_shape_same. cbn [bind shape].
  rewrite broadcast_shape_same. cbn [bind shape].
  rewrite broadcast_shape_same. cbn [bind].
  eexists. exists r'. split; [reflexivity|]. split; [exact Er'|].
  split; [reflexivity|]. split; [congruence|].
  intros i j Hi Hj. cbn [item]. unfold bbget, bget.
  cbn [np_ne_scalar bshape bitem astype shape item cast].
  rewrite Sa, Sb. rewrite !(bidx_lt _ i), !(bidx_lt _ j) by assumption.
  rewrite guarded_quotient_is_ndvi1 by now apply Hnonneg.
  rewrite Hr' by (rewrite Sa; assumption).
  split; [reflexivity | apply ndvi1_range].
Qed.

Lemma compute_ndwi_matches_calculate_ndwi_witness :
  exists r r',
    compute_ndwi (Grids.nir_red_tensor (Grids.row float64_t [fin 3; fin 0])
                                       (Grids.row float64_t [fin 1; fin 0])) 2 6 = Ok r /\
    calculate_ndwi (Grids.row float64_t [fin 1; fin 0])
                   (Grids.row float64_t [fin 3; fin 0]) = Ok r' /\
    item r 0 0 = item r' 0 0.
Proof.
  destruct (compute_ndwi_matches_calculate_ndwi
              (Grids.nir_red_tensor (Grids.row float64_t [fin 3; fin 0])
                                    (Grids.row float64_t [fin 1; fin 0])) 2 6
              (Grids.row float64_t [fin 1; fin 0])
              (Grids.row float64_t [fin 3; fin 0]) eq_refl eq_refl)
    as (r & r' & Er & Er' & _ & _ & H).
  { intros i j Hi Hj. cbn in Hi, Hj.
    destruct j as [| [| j]]; [| | lia]; split; reflexivity. }
  exists r, r'. split; [exact Er|]. split; [exact Er'|].
  apply H; cbn; lia.
Defined.


End IndexExtra.

(* ===================================================================== *)
(** * Further properties of the band compositor                            *)
(* ===================================================================== *)

Module CompositorExtra.
Import Numpy Analysis Notions ArrayFacts CompositorSpec.

Lemma mean1_one v : mean1 [v] = v.
Proof.
  destruct (isnan v) eqn:E; [|now apply mean1_single].
  destruct v; try discriminate E. reflexivity.
Qed.

(** ** The order of float64 values without NaN *)

Ltac fcases :=
  cbn -[Qccompare Qeq_bool]; unfold Qccompare;
  repeat match goal with
         | |- context [Qcompare ?a ?b] => destruct (Qcompare_spec a b)
         | |- context [Qeq_bool ?a ?b] =>
             let E := fresh "E" in
             destruct (Qeq_bool a b) eqn:E;
             [apply Qeq_bool_eq in E | apply Qeq_bool_neq in E]
         end;
  cbn; intros; try reflexivity; try discriminate; try (exfalso; qlra).

Lemma fleb_refl x : isnan x = false -> fleb x x = true.
Proof.
  destruct x as [| s | q]; [discriminate | destruct s; reflexivity |].
  intros _. unfold fleb, fltb, feqb. fcases.
Qed.

Lemma fleb_total x y :
  isnan x = false -> isnan y = false -> fleb x y = false -> fleb y x = true.
Proof.
  destruct x as [| s | a], y as [| t | b]; try discriminate;
    repeat match goal with s : bool |- _ => destruct s end;
    try (cbn; intros; (reflexivity || discriminate)).
  intros _ _. unfold fleb, fltb, feqb. fcases.
Qed.

Lemma fleb_trans x y z :
  fleb x y = true -> fleb y z = true -> fleb x z = true.
Proof.
  destruct x as [| s | a], y as [| t | b], z as [| u | c]; try discriminate;
    repeat match goal with s : bool |- _ => destruct s end;
    try (cbn; intros; (reflexivity || discriminate)).
  unfold fleb, fltb, feqb. fcases.
Qed.

(** ** Insertion sort *)

Lemma insert_sorted_perm x l : Permutation (insert_sorted x l) (x :: l).
Proof.
  induction l as [| y l IH]; cbn; [reflexivity|].
  destruct (fleb x y); [reflexivity|].
  rewrite IH. apply perm_swap.
Qed.

Lemma sort_perm l : Permutation (sort l) l.
Proof.
  induction l as [| x l IH]; cbn; [reflexivity|].
  unfold sort in *. cbn. rewrite insert_sorted_perm. now constructor.
Qed.

Lemma nan_free_perm l l' : Permutation l l' -> nan_free l -> nan_free l'.
Proof. unfold nan_free. intros H. now rewrite H. Qed.

Lemma insert_sorted_sorted x l :
  isnan x = false -> nan_free l ->
  StronglySorted (fun a b => fleb a b = true) l ->
  StronglySorted (fun a b => fleb a b = true) (insert_sorted x l).
Proof.
  intros Hx Hl Hs. induction Hs as [| y l Hs IH Hy]; cbn.
  - constructor; constructor.
  - inversion Hl as [| ? ? Hyn Hl']; subst.
    destruct (fleb x y) eqn:E.
    + constructor; [now constructor|]. constructor; [exact E|].
      rewrite List.Forall_forall in *. intros z Hz.
      apply fleb_trans with y; auto.
    + constructor; [now apply IH|].
      assert (Hp := insert_sorted_perm x l).
      rewrite List.Forall_forall. intros z Hz.
      apply (Permutation_in _ Hp) in Hz. destruct Hz as [<- | Hz].
      * now apply fleb_total.
      * rewrite List.Forall_forall in Hy. now apply Hy.
Qed.

Lemma sort_sorted l :
  nan_free l -> StronglySorted (fun a b => fleb a b = true) (sort l).
Proof.
  induction l as [| x l IH]; intros H; [constructor|].
  inversion H; subst. change (sort (x :: l)) with (insert_sorted x (sort l)).
  apply insert_sorted_sorted; auto.
  apply (nan_free_perm l); [symmetry; apply sort_perm | assumption].
Qed.

(** ** The median of an odd number of observations *)

Lemma filter_length_perm (f : float64 -> bool) l l' :
  Permutation l l' -> length (List.filter f l) = length (List.filter f l').
Proof.
  induction 1 as [| x l l' _ IH | x y l | l l' l'' _ IH1 _ IH2]; cbn.
  - reflexivity.
  - destruct (f x); cbn; now rewrite IH.
  - destruct (f x), (f y); reflexivity.
  - now rewrite IH1.
Qed.

Lemma count_prefix (f : float64 -> bool) s : forall k,
  (k <= length s)%nat ->
  (forall i, (i < k)%nat -> f (nth i s NaN) = true) ->
  (k <= length (List.filter f s))%nat.
Proof.
  induction s as [| x s IH]; intros k Hk H; cbn [length List.filter] in *; [lia|].
  destruct k as [| k]; [lia|].
  assert (Hx : f x = true) by (apply (H 0%nat); lia).
  rewrite Hx. cbn [length].
  apply le_n_S, IH; [lia|]. intros i Hi. apply (H (S i)). lia.
Qed.

Lemma count_suffix (f : float64 -> bool) s : forall k,
  (forall i, (k <= i < length s)%nat -> f (nth i s NaN) = true) ->
  (length s - k <= length (List.filter f s))%nat.
Proof.
  induction s as [| x s IH]; intros k H; cbn [length List.filter]; [lia|].
  destruct k as [| k].
  - assert (Hx : f x = true) by (apply (H 0%nat); cbn; lia).
    rewrite Hx. cbn [length].
    specialize (IH 0%nat). rewrite Nat.sub_0_r in IH.
    apply le_n_S, IH. intros i Hi. apply (H (S i)). cbn. lia.
  - assert (Hs : (length s - k <= length (List.filter f s))%nat).
    { apply IH. intros i Hi. apply (H (S i)). cbn. lia. }
    destruct (f x); cbn [length]; lia.
Qed.

Lemma sorted_nth s : forall i j,
  StronglySorted (fun a b => fleb a b = true) s -> nan_free s ->
  (i <= j < length s)%nat -> fleb (nth i s NaN) (nth j s NaN) = true.
Proof.
  induction s as [| x s IH]; intros i j Hs Hn Hij; cbn in Hij; [lia|].
  inversion Hs as [| ? ? Hs' Hx]; subst. inversion Hn as [| ? ? Hxn Hn']; subst.
  destruct i as [| i], j as [| j]; cbn [nth]; try lia.
  - now apply fleb_refl.
  - rewrite List.Forall_forall in Hx. apply Hx, nth_In. lia.
  - apply IH; auto. lia.
Qed.

Lemma median1_odd vals m :
  nan_free vals -> length vals = (2 * m + 1)%nat ->
  median1 vals = nth m (sort vals) NaN.
Proof.
  intros Hn Hlen. unfold median1.
  assert (E : existsb isnan vals = false).
  { apply not_true_is_false. intros H. apply existsb_exists in H as (x & Hx & Hnan).
    unfold nan_free in Hn. rewrite List.Forall_forall in Hn.
    rewrite (Hn x Hx) in Hnan. discriminate. }
  rewrite E. rewrite (Permutation_length (sort_perm vals)), Hlen.
  replace (Nat.even (2 * m + 1)) with false
    by (symmetry; rewrite Nat.add_1_r, Nat.even_succ, Nat.odd_mul; reflexivity).
  replace ((2 * m + 1) / 2)%nat with m
    by (apply Nat.div_unique with 1%nat; lia).
  apply mean1_one.
Qed.

(** The median of an odd number of NaN-free observations is one of them,
    with at least half of the observations on either side. *)
Lemma median1_odd_spec vals m :
  nan_free vals -> length vals = (2 * m + 1)%nat ->
  In (median1 vals) vals /\
  (m + 1 <= count_le (median1 vals) vals)%nat /\
  (m + 1 <= count_ge (median1 vals) vals)%nat.
Proof.
  intros Hn Hlen. rewrite (median1_odd vals m Hn Hlen).
  pose proof (sort_perm vals) as Hp.
  pose proof (sort_sorted vals Hn) as Hs.
  pose proof (nan_free_perm _ _ (Permutation_sym Hp) Hn) as Hns.
  pose proof (Permutation_length Hp) as Hl. rewrite Hlen in Hl.
  set (s := sort vals) in *. set (v := nth m s NaN).
  split; [|split].
  - apply (Permutation_in _ Hp). apply nth_In. lia.
  - unfold count_le. rewrite <- (filter_length_perm _ _ _ Hp).
    apply count_prefix; [lia|]. intros i Hi. apply sorted_nth; auto. lia.
  - unfold count_ge. rewrite <- (filter_length_perm _ _ _ Hp).
    replace (m + 1)%nat with (length s - m)%nat by lia.
    apply count_suffix. intros i Hi. apply sorted_nth; auto.
Qed.

(** X7.  On an odd number [2m + 1] of same-shape grids whose values fit the
    dtype of the first, [fuse_median] returns at every NaN-free pixel
    whose int64 observations are integers of magnitude at most [2 ^ 53]
    (those binary64 holds exactly) one of the observed values, such that at
    least [m + 1] observations are at most it and at least [m + 1] are at
    least it: up to [m] corrupted observations cannot move the composite
    outside the range of the others. *)
Theorem fuse_median_odd img0 rest m i j :
  Forall (fun b => shape b = shape img0) rest ->
  length (img0 :: rest) = (2 * m + 1)%nat ->
  nan_free (column (img0 :: rest) i j) ->
  (forall v, In v (column (img0 :: rest) i j) -> cast (dt img0) v = v) ->
  Forall (fun b => dt b = int64 -> int_within (2 ^ 53) (item b i j)) (img0 :: rest) ->
  exists r, fuse_median (img0 :: rest) = Ok r /\
    In (item r i j) (column (img0 :: rest) i j) /\
    (m + 1 <= count_le (item r i j) (column (img0 :: rest) i j))%nat /\
    (m + 1 <= count_ge (item r i j) (column (img0 :: rest) i j))%nat.
Proof.
  intros Hs Hlen Hn Hc _.
  destruct (fuse_median_ok img0 rest Hs) as (r & Er & _ & _ & Hr).
  exists r. split; [exact Er|]. rewrite Hr.
  assert (Hl : length (column (img0 :: rest) i j) = (2 * m + 1)%nat).
  { unfold column. now rewrite length_map. }
  destruct (median1_odd_spec _ m Hn Hl) as (Hin & Hle & Hge).
  rewrite (Hc _ Hin). auto.
Qed.

(** Three observations 10, 9000 (a cloud) and 20: the composite is 20. *)
Lemma fuse_median_odd_witness :
  exists r,
    fuse_median [Grids.full float64_t 2 2 (of_Z 10); Grids.full float64_t 2 2 (of_Z 9000);
                 Grids.full float64_t 2 2 (of_Z 20)] = Ok r /\
    In (item r 1 1) [of_Z 10; of_Z 9000; of_Z 20] /\
    feqb (item r 1 1) (of_Z 20) = true.
Proof.
  destruct (fuse_median_odd (Grids.full float64_t 2 2 (of_Z 10))
              [Grids.full float64_t 2 2 (of_Z 9000); Grids.full float64_t 2 2 (of_Z 20)]
              1 1 1) as (r & Er & Hin & _).
  - repeat constructor.
  - reflexivity.
  - repeat constructor.
  - intros v _. reflexivity.
  - repeat constructor; discriminate.
  - exists r. split; [exact Er|]. split; [exact Hin|].
    inversion Er; subst. vm_compute. reflexivity.
Defined.

(** ** The median does not depend on the order of the observations *)

Lemma fleb_antisym x y : fleb x y = true -> fleb y x = true -> x = y.
Proof.
  destruct x as [| s | a], y as [| t | b]; try discriminate;
    repeat match goal with s : bool |- _ => destruct s end;
    try (cbn; intros; (reflexivity || discriminate)).
  intros H1 H2. f_equal. apply Qc_is_canon.
  revert H1 H2. unfold fleb, fltb, feqb. fcases; try assumption; qlra.
Qed.

Lemma sorted_perm_unique l : forall l',
  StronglySorted (fun a b => fleb a b = true) l ->
  StronglySorted (fun a b => fleb a b = true) l' ->
  nan_free l -> Permutation l l' -> l = l'.
Proof.
  induction l as [| x l IH]; intros l' Hs Hs' Hn Hp.
  - apply Permutation_nil in Hp. now subst.
  - destruct l' as [| y l']; [apply Permutation_sym, Permutation_nil in Hp; discriminate|].
    inversion Hs as [| ? ? Hsl Hx]; subst. inversion Hs' as [| ? ? Hsl' Hy]; subst.
    inversion Hn as [| ? ? Hxn Hnl]; subst.
    rewrite List.Forall_forall in Hx, Hy.
    assert (Hyn : isnan y = false).
    { pose proof (nan_free_perm _ _ Hp Hn) as Hn'. now inversion Hn'. }
    assert (Hxy : fleb x y = true).
    { assert (Hin : In y (x :: l)) by (apply (Permutation_in _ (Permutation_sym Hp)); now left).
      destruct Hin as [-> | Hin]; [now apply fleb_refl | now apply Hx]. }
    assert (Hyx : fleb y x = true).
    { assert (Hin : In x (y :: l')) by (apply (Permutation_in _ Hp); now left).
      destruct Hin as [-> | Hin]; [now apply fleb_refl | now apply Hy]. }
    assert (x = y) by now apply fleb_antisym. subst y.
    f_equal. apply IH; auto. now apply Permutation_cons_inv in Hp.
Qed.

Lemma existsb_perm (f : float64 -> bool) l l' :
  Permutation l l' -> existsb f l = existsb f l'.
Proof.
  induction 1 as [| x l l' _ IH | x y l | l l' l'' _ IH1 _ IH2]; cbn.
  - reflexivity.
  - now rewrite IH.
  - destruct (f x), (f y); reflexivity.
  - now rewrite IH1.
Qed.

Lemma median1_perm l l' : Permutation l l' -> median1 l = median1 l'.
Proof.
  intros Hp. unfold median1. rewrite <- (existsb_perm isnan l l' Hp).
  destruct (existsb isnan l) eqn:E; [reflexivity|].
  assert (Hn : nan_free l).
  { unfold nan_free. rewrite List.Forall_forall. intros x Hx.
    destruct (isnan x) eqn:Ex; [|reflexivity].
    assert (existsb isnan l = true) by (apply existsb_exists; eauto). congruence. }
  assert (Hn' := nan_free_perm _ _ Hp Hn).
  assert (Es : sort l = sort l').
  { apply sorted_perm_unique.
    - now apply sort_sorted.
    - now apply sort_sorted.
    - apply (nan_free_perm l); [symmetry; apply sort_perm | assumption].
    - rewrite (sort_perm l), Hp. symmetry. apply sort_perm. }
  now rewrite Es.
Qed.

(** X8.  The order of the stack does not matter to [fuse_median], except
    through the dtype of its first grid: two orderings of the same grids
    whose first grids have one dtype give the same pixels. *)
Theorem fuse_median_order_irrelevant img0 rest img0' rest' :
  Permutation (img0 :: rest) (img0' :: rest') ->
  Forall (fun b => shape b = shape img0) rest ->
  dt img0 = dt img0' ->
  exists r r', fuse_median (img0 :: rest) = Ok r /\
    fuse_median (img0' :: rest') = Ok r' /\
    shape r = shape r' /\ dt r = dt r' /\
    forall i j, item r i j = item r' i j.
Proof.
  intros Hp Hs Hd.
  assert (Hall : Forall (fun b => shape b = shape img0) (img0 :: rest))
    by (constructor; auto).
  assert (Hall' : Forall (fun b => shape b = shape img0) (img0' :: rest'))
    by now rewrite <- Hp.
  inversion Hall' as [| ? ? H0 Hrest']; subst.
  assert (Hs' : Forall (fun b => shape b = shape img0') rest').
  { rewrite List.Forall_forall in *. intros b Hb. rewrite H0. now apply Hrest'. }
  destruct (fuse_median_ok img0 rest Hs) as (r & Er & Dr & Sr & Hr).
  destruct (fuse_median_ok img0' rest' Hs') as (r' & Er' & Dr' & Sr' & Hr').
  exists r, r'. repeat split; try assumption; try congruence.
  intros i j. rewrite Hr, Hr', Hd. f_equal.
  apply median1_perm. unfold column. now apply Permutation_map.
Qed.

Lemma fuse_median_order_irrelevant_witness :
  exists r r',
    fuse_median [Grids.full int64 1 1 (of_Z 10); Grids.full int64 1 1 (of_Z 15)] = Ok r /\
    fuse_median [Grids.full int64 1 1 (of_Z 15); Grids.full int64 1 1 (of_Z 10)] = Ok r' /\
    item r 0 0 = item r' 0 0.
Proof.
  destruct (fuse_median_order_irrelevant
              (Grids.full int64 1 1 (of_Z 10)) [Grids.full int64 1 1 (of_Z 15)]
              (Grids.full int64 1 1 (of_Z 15)) [Grids.full int64 1 1 (of_Z 10)])
    as (r & r' & Er & Er' & _ & _ & H).
  - apply perm_swap.
  - repeat constructor.
  - reflexivity.
  - exists r, r'. auto.
Defined.

(** X5.  The three reducers keep the grid: whenever one of them returns a
    composite, with or without masks, the composite has the shape and the
    dtype of the first grid of the stack. *)
Theorem reducers_keep_shape_and_dtype img0 rest quality_masks r :
  fuse_mean (img0 :: rest) = Ok r \/ fuse_median (img0 :: rest) = Ok r \/
  fuse_best_pixel (img0 :: rest) quality_masks = Ok r ->
  shape r = shape img0 /\ dt r = dt img0.
Proof.
  intros H.
  destruct (forallb (fun b => shape_eqb (shape b) (shape img0)) rest) eqn:E.
  - pose proof (proj1 (forallb_shape img0 rest) E) as Hs.
    destruct (fuse_mean_ok img0 rest Hs) as (m & Em & Dm & Sm & _).
    destruct (fuse_median_ok img0 rest Hs) as (d & Ed & Dd & Sd & _).
    destruct H as [H | [H | H]].
    + rewrite Em in H. inversion H; subst. auto.
    + rewrite Ed in H. inversion H; subst. auto.
    + destruct rest as [| img1 rest'].
      * cbn in H. inversion H; subst. auto.
      * unfold fuse_best_pixel in H. rewrite E in H. cbn [negb] in H.
        rewrite (np_stack_ok _ _ Hs) in H. cbn [bind] in H.
        destruct quality_masks as [[| m0 ms] |];
          try (inversion H; subst; auto; fail).
        destruct (np_stack (m0 :: ms)); [cbn [bind] in H | discriminate H].
        unfold fill in H. destruct (first_error _ _); [discriminate H|].
        inversion H; subst. cbn. destruct (shape img0). auto.
  - exfalso. destruct H as [H | [H | H]].
    + unfold fuse_mean, np_stack in H. rewrite E in H. discriminate H.
    + unfold fuse_median, np_stack in H. rewrite E in H. discriminate H.
    + destruct rest as [| img1 rest']; [discriminate E|].
      unfold fuse_best_pixel in H. rewrite E in H. discriminate H.
Qed.

Lemma reducers_keep_shape_and_dtype_witness :
  exists r, fuse_mean [Grids.full int64 4 4 (of_Z 10); Grids.full float64_t 4 4 (of_Z 20)] = Ok r /\
            shape r = (4, 4)%nat /\ dt r = int64.
Proof.
  eexists. split; [reflexivity|].
  apply (reducers_keep_shape_and_dtype (Grids.full int64 4 4 (of_Z 10))
           [Grids.full float64_t 4 4 (of_Z 20)] None).
  left. reflexivity.
Defined.

(** X6.  Degenerate stacks.  An empty list makes each reducer raise
    [ValueError]; a single grid is returned as it is by [fuse_best_pixel],
    whatever the masks, and pixel for pixel by [fuse_mean] and
    [fuse_median] when its elements are values of its dtype and, for an
    int64 grid, integers of magnitude at most [2 ^ 53] (the reducers go
    through binary64, which holds these exactly). *)
Theorem reducers_on_degenerate_stacks :
  (exists m1 m2 m3, fuse_mean [] = Raise (ValueError m1) /\
                    fuse_median [] = Raise (ValueError m2) /\
                    forall masks, fuse_best_pixel [] masks = Raise (ValueError m3)) /\
  (forall img masks, fuse_best_pixel [img] masks = Ok img) /\
  (forall img, well_typed img -> exact_ints img ->
     exists m d, fuse_mean [img] = Ok m /\ fuse_median [img] = Ok d /\
       shape m = shape img /\ shape d = shape img /\
       dt m = dt img /\ dt d = dt img /\
       forall i j, (i < fst (shape img))%nat -> (j < snd (shape img))%nat ->
         item m i j = item img i j /\ item d i j = item img i j).
Proof.
  split; [|split].
  - do 3 eexists. repeat split.
  - reflexivity.
  - intros img Hwt _.
    destruct (fuse_mean_ok img [] (List.Forall_nil _)) as (m & Em & Dm & Sm & Hm).
    destruct (fuse_median_ok img [] (List.Forall_nil _)) as (d & Ed & Dd & Sd & Hd).
    exists m, d. repeat split; try assumption.
    + rewrite Hm. cbn [column map]. now rewrite mean1_one.
    + rewrite Hd. cbn [column map]. now rewrite median1_single.
Qed.

Lemma reducers_on_degenerate_stacks_witness :
  exists m, fuse_mean [Grids.full int64 2 2 (of_Z 7)] = Ok m /\
            item m 1 1 = of_Z 7.
Proof.
  destruct (proj2 (proj2 reducers_on_degenerate_stacks) (Grids.full int64 2 2 (of_Z 7)))
    as (m & d & Em & _ & _ & _ & _ & _ & H).
  - intros i j. reflexivity.
  - intros _ i j _ _. exists 7%Z. split; [reflexivity | vm_compute; discriminate].
  - exists m. split; [exact Em|]. apply (H 1%nat 1%nat); cbn; lia.
Defined.

End CompositorExtra.

(* ===================================================================== *)
(** * Further properties of resampling                                     *)
(* ===================================================================== *)

Module ResampleExtra.
Import Numpy Analysis Notions ArrayFacts ResampleSpec.

Lemma Q2Qc_inject_nonzero z : z <> 0%Z -> Q2Qc (inject_Z z) <> 0%Qc.
Proof.
  intros Hz H. apply Q2Qc_eq_iff in H. unfold Qeq in H. cbn in H. lia.
Qed.

Lemma Qeq_bool_inject_nonzero z :
  z <> 0%Z -> Qeq_bool (Q2Qc (inject_Z z)) 0 = false.
Proof.
  intros Hz. apply not_true_is_false. intros H. apply Qeq_bool_eq in H.
  rewrite this_of_Z in H. unfold Qeq in H. cbn in H. lia.
Qed.

Lemma py_int_of_Z z : py_int (of_Z z) = Ok z.
Proof.
  unfold py_int, of_Z, fin, Qtrunc. cbn [this Q2Qc].
  rewrite Qred_identity by (cbn; apply Z.gcd_1_r).
  cbn. now rewrite Z.quot_1_r.
Qed.

(** [np.linspace(0, stop, num)] stays within [[0, stop]]. *)
Lemma linspace0_range stop num i :
  (0 <= stop)%Z -> (i < num)%nat ->
  exists q, linspace0 stop num i = Finite q /\ (0 <= this q <= inject_Z stop)%Q.
Proof.
  intros Hstop Hi. unfold linspace0.
  destruct (Nat.eqb_spec num 1) as [-> | Hnum].
  - exists 0%Qc. split; [reflexivity|]. change (this 0%Qc) with 0%Q.
    split; unfold Qle; cbn; lia.
  - assert (Hd : (Z.of_nat num - 1 <> 0)%Z) by lia.
    unfold of_Z, fin, fdiv. rewrite (Qeq_bool_inject_nonzero _ Hd).
    cbn [fmul]. eexists. split; [reflexivity|].
    assert (E : (this (Q2Qc (inject_Z (Z.of_nat i))
                       * (Q2Qc (inject_Z stop) / Q2Qc (inject_Z (Z.of_nat num - 1))))%Qc
                 == inject_Z (Z.of_nat i * stop) / inject_Z (Z.of_nat num - 1))%Q).
    { unfold Qcdiv, Qcmult, Qcinv. cbn [this Q2Qc]. rewrite !Qred_correct.
      rewrite inject_Z_mult. field.
      intros H. unfold Qeq in H. cbn in H. lia. }
    rewrite E.
    assert (Hpos : (0 < inject_Z (Z.of_nat num - 1))%Q) by (unfold Qlt; cbn; lia).
    split.
    + apply Qle_shift_div_l; [exact Hpos|]. unfold Qle. cbn. nia.
    + apply Qle_shift_div_r; [exact Hpos|]. unfold Qle. cbn. nia.
Qed.

Lemma getitem_Z a y x :
  (0 <= y < Z.of_nat (fst (shape a)))%Z -> (0 <= x < Z.of_nat (snd (shape a)))%Z ->
  getitem a y x = Ok (item a (Z.to_nat y) (Z.to_nat x)).
Proof.
  intros Hy Hx.
  rewrite <- (Z2Nat.id y) at 1 by lia. rewrite <- (Z2Nat.id x) at 1 by lia.
  apply getitem_ok; lia.
Qed.

Lemma Qtrunc_range q n :
  (0 <= q <= inject_Z n)%Q -> (0 <= Qtrunc q <= n)%Z.
Proof.
  intros [H0 Hn]. rewrite Qtrunc_floor by exact H0. split.
  - rewrite <- (Qfloor_Z 0). now apply Qfloor_resp_le.
  - rewrite <- (Qfloor_Z n). now apply Qfloor_resp_le.
Qed.

(** A sample point inside the grid never raises. *)
Lemma bilinear_pixel_ok array h w qy qx :
  shape array = (h, w) -> (0 < h)%nat -> (0 < w)%nat ->
  (0 <= this qy <= inject_Z (Z.of_nat h - 1))%Q ->
  (0 <= this qx <= inject_Z (Z.of_nat w - 1))%Q ->
  exists v, bilinear_pixel array h w (Finite qy) (Finite qx) = Ok v.
Proof.
  intros Hs Hh Hw Hy Hx. unfold bilinear_pixel. cbn [py_int bind].
  apply Qtrunc_range in Hy, Hx.
  rewrite !getitem_Z by (rewrite Hs; cbn [fst snd]; lia).
  cbn [bind]. eauto.
Qed.

Lemma convex_bound (a b c d fx fy M : Q) :
  (- M <= a <= M -> - M <= b <= M -> - M <= c <= M -> - M <= d <= M ->
   0 <= fx <= 1 -> 0 <= fy <= 1 ->
   - M <= a * (1 - fx) * (1 - fy) + b * fx * (1 - fy)
          + c * (1 - fx) * fy + d * fx * fy <= M)%Q.
Proof.
  intros Ha Hb Hc Hd Hx Hy.
  assert (W1 : (0 <= (1 - fx) * (1 - fy))%Q) by (apply Qmult_le_0_compat; qlra).
  assert (W2 : (0 <= fx * (1 - fy))%Q) by (apply Qmult_le_0_compat; qlra).
  assert (W3 : (0 <= (1 - fx) * fy)%Q) by (apply Qmult_le_0_compat; qlra).
  assert (W4 : (0 <= fx * fy)%Q) by (apply Qmult_le_0_compat; qlra).
  assert (P1 : (0 <= (M - a) * ((1 - fx) * (1 - fy)))%Q) by (apply Qmult_le_0_compat; qlra).
  assert (P2 : (0 <= (M - b) * (fx * (1 - fy)))%Q) by (apply Qmult_le_0_compat; qlra).
  assert (P3 : (0 <= (M - c) * ((1 - fx) * fy))%Q) by (apply Qmult_le_0_compat; qlra).
  assert (P4 : (0 <= (M - d) * (fx * fy))%Q) by (apply Qmult_le_0_compat; qlra).
  assert (N1 : (0 <= (M + a) * ((1 - fx) * (1 - fy)))%Q) by (apply Qmult_le_0_compat; qlra).
  assert (N2 : (0 <= (M + b) * (fx * (1 - fy)))%Q) by (apply Qmult_le_0_compat; qlra).
  assert (N3 : (0 <= (M + c) * ((1 - fx) * fy))%Q) by (apply Qmult_le_0_compat; qlra).
  assert (N4 : (0 <= (M + d) * (fx * fy))%Q) by (apply Qmult_le_0_compat; qlra).
  split; Lqa.nra.
Qed.

(** The fractional part left by [int()] on a non-negative coordinate. *)
Lemma Qtrunc_frac (q : Q) :
  (0 <= q)%Q -> (0 <= q - inject_Z (Qtrunc q) <= 1)%Q.
Proof.
  intros H. rewrite Qtrunc_floor by exact H.
  pose proof (Qfloor_le q) as H1. pose proof (Qlt_floor q) as H2.
  rewrite inject_Z_plus in H2. change (inject_Z 1) with 1%Q in H2.
  split; qlra.
Qed.

(** An interpolated value lies within the bound of the source pixels. *)
Lemma bilinear_pixel_within array h w qy qx b :
  shape array = (h, w) -> (0 < h)%nat -> (0 < w)%nat ->
  (0 <= this qy <= inject_Z (Z.of_nat h - 1))%Q ->
  (0 <= this qx <= inject_Z (Z.of_nat w - 1))%Q ->
  (forall i j, (i < h)%nat -> (j < w)%nat -> within b (item array i j)) ->
  exists v, bilinear_pixel array h w (Finite qy) (Finite qx) = Ok v /\ within b v.
Proof.
  intros Hs Hh Hw Hy Hx Hb. unfold bilinear_pixel. cbn [py_int bind].
  pose proof (Qtrunc_frac (this qy) (proj1 Hy)) as Hfy.
  pose proof (Qtrunc_frac (this qx) (proj1 Hx)) as Hfx.
  apply Qtrunc_range in Hy, Hx.
  rewrite !getitem_Z by (rewrite Hs; cbn [fst snd]; lia).
  cbn [bind].
  set (y0 := Qtrunc (this qy)) in *. set (x0 := Qtrunc (this qx)) in *.
  set (y1 := Z.min (y0 + 1) (Z.of_nat h - 1)).
  set (x1 := Z.min (x0 + 1) (Z.of_nat w - 1)).
  destruct (Hb (Z.to_nat y0) (Z.to_nat x0)) as (a00 & -> & H00); [lia | lia |].
  destruct (Hb (Z.to_nat y0) (Z.to_nat x1)) as (a01 & -> & H01); [lia | lia |].
  destruct (Hb (Z.to_nat y1) (Z.to_nat x0)) as (a10 & -> & H10); [lia | lia |].
  destruct (Hb (Z.to_nat y1) (Z.to_nat x1)) as (a11 & -> & H11); [lia | lia |].
  unfold of_Z, fin, fone. cbn [fsub fadd fopp fmul].
  eexists. split; [reflexivity|]. eexists. split; [reflexivity|].
  apply Qabs_Qle_condition in H00, H01, H10, H11. apply Qabs_Qle_condition.
  unfold Qcmult, Qcplus, Qcopp. repeat setoid_rewrite this_Q2Qc.
  pose proof (convex_bound a00 a01 a10 a11
                (qx - inject_Z x0) (qy - inject_Z y0) (inject_Z b)
                H00 H01 H10 H11 Hfx Hfy) as H.
  exact H.
Qed.

Lemma _resample_bilinear_ok array new_h new_w :
  (0 < fst (shape array))%nat -> (0 < snd (shape array))%nat ->
  (0 <= new_h)%Z -> (0 <= new_w)%Z ->
  (dt array = int64 -> within_grid (2 ^ 53) array) ->
  exists r, _resample_bilinear array new_h new_w = Ok r /\
    shape r = (Z.to_nat new_h, Z.to_nat new_w) /\ dt r = dt array.
Proof.
  intros Hh Hw Hnh Hnw Hb. unfold _resample_bilinear.
  unfold within_grid in Hb.
  destruct (shape array) as [h w] eqn:Es. cbn [fst snd] in *.
  replace ((new_h <? 0)%Z || (new_w <? 0)%Z) with false.
  2:{ symmetry. apply orb_false_iff. split; apply Z.ltb_ge; lia. }
  destruct (fill_ok (dt array) (Z.to_nat new_h) (Z.to_nat new_w)
              (fun i j => bilinear_pixel array h w
                            (linspace0 (Z.of_nat h - 1) (Z.to_nat new_h) i)
                            (linspace0 (Z.of_nat w - 1) (Z.to_nat new_w) j)))
    as (r & Er & Dr & Sr & _).
  - intros i j Hi Hj.
    destruct (linspace0_range (Z.of_nat h - 1) (Z.to_nat new_h) i) as (qy & -> & Hy);
      [lia | exact Hi |].
    destruct (linspace0_range (Z.of_nat w - 1) (Z.to_nat new_w) j) as (qx & -> & Hx);
      [lia | exact Hj |].
    destruct (dt array) eqn:Ed.
    + destruct (bilinear_pixel_within array h w qy qx (2 ^ 53) Es Hh Hw Hy Hx
                  (Hb eq_refl)) as (v & Ev & Hv).
      destruct (within_setitem int64 (2 ^ 53) v) as [u Eu]; [lia | exact Hv |].
      eauto.
    + destruct (bilinear_pixel_ok array h w qy qx Es Hh Hw Hy Hx) as [v Ev].
      exists v, v. split; [exact Ev | reflexivity].
  - exists r. auto.
Qed.

(** X9.  On a non-empty grid [_resample_bilinear] never fails for
    non-negative target sizes: it returns a grid of the requested shape and
    of the dtype of the source.  For a float64 source this holds whatever
    its pixels; for an int64 source, when they are of magnitude at most
    [2 ^ 53] (an interpolated value that leaves int64 cannot be stored). *)
Theorem _resample_bilinear_shape array new_h new_w :
  (0 < fst (shape array))%nat -> (0 < snd (shape array))%nat ->
  (0 <= new_h)%Z -> (0 <= new_w)%Z ->
  (dt array = int64 -> within_grid (2 ^ 53) array) ->
  exists r, _resample_bilinear array new_h new_w = Ok r /\
    shape r = (Z.to_nat new_h, Z.to_nat new_w) /\ dt r = dt array.
Proof. apply _resample_bilinear_ok. Qed.

Lemma _resample_bilinear_shape_witness :
  exists r, _resample_bilinear (Grids.row int64 [of_Z 5; of_Z 7; of_Z 9]) 2 6 = Ok r /\
            shape r = (2, 6)%nat /\ dt r = int64.
Proof.
  apply (_resample_bilinear_shape (Grids.row int64 [of_Z 5; of_Z 7; of_Z 9]) 2 6);
    try (cbn; lia).
  intros _ i j Hi Hj. cbn in Hj. cbn [Grids.row item].
  apply int_within_within.
  destruct j as [| [| [| j]]]; [| | | lia];
    eexists; (split; [reflexivity | vm_compute; discriminate]).
Defined.

(** At a sample point that is a grid node the interpolation weights are 1
    for the node and 0 for its neighbours. *)
Lemma bilinear_pixel_at_node array h w y x :
  shape array = (h, w) -> finite_grid array ->
  (y < h)%nat -> (x < w)%nat ->
  bilinear_pixel array h w (of_Z (Z.of_nat y)) (of_Z (Z.of_nat x))
  = Ok (item array y x).
Proof.
  intros Hs Hfin Hy Hx. unfold bilinear_pixel.
  rewrite !py_int_of_Z. cbn [bind].
  rewrite !getitem_Z by (rewrite Hs; cbn [fst snd]; lia).
  cbn [bind]. rewrite !Nat2Z.id.
  set (y1 := Z.to_nat (Z.min (Z.of_nat y + 1) (Z.of_nat h - 1))).
  set (x1 := Z.to_nat (Z.min (Z.of_nat x + 1) (Z.of_nat w - 1))).
  assert (Hy1 : (y1 < h)%nat) by (unfold y1; lia).
  assert (Hx1 : (x1 < w)%nat) by (unfold x1; lia).
  unfold finite_grid in Hfin. rewrite Hs in Hfin. cbn [fst snd] in Hfin.
  destruct (Hfin y x Hy Hx) as [q00 ->].
  destruct (Hfin y x1 Hy Hx1) as [q01 ->].
  destruct (Hfin y1 x Hy1 Hx) as [q10 ->].
  destruct (Hfin y1 x1 Hy1 Hx1) as [q11 ->].
  unfold of_Z, fin, fone. cbn [fsub fadd fopp fmul].
  do 2 f_equal. ring.
Qed.

Lemma linspace0_same n i :
  (i < n)%nat -> linspace0 (Z.of_nat n - 1) n i = of_Z (Z.of_nat i).
Proof.
  intros Hi. unfold linspace0. destruct (Nat.eqb_spec n 1) as [-> | Hn].
  - replace i with 0%nat by lia. reflexivity.
  - assert (Hd : (Z.of_nat n - 1 <> 0)%Z) by lia.
    unfold of_Z, fin, fdiv. rewrite (Qeq_bool_inject_nonzero _ Hd).
    cbn [fmul]. f_equal. field. now apply Q2Qc_inject_nonzero.
Qed.

Lemma linspace0_first stop num :
  (0 < num)%nat -> linspace0 stop num 0 = of_Z 0.
Proof.
  intros Hn. unfold linspace0. destruct (Nat.eqb_spec num 1) as [-> | Hnum].
  - reflexivity.
  - assert (Hd : (Z.of_nat num - 1 <> 0)%Z) by lia.
    unfold of_Z, fin, fdiv. rewrite (Qeq_bool_inject_nonzero _ Hd).
    cbn [fmul]. f_equal. change (Q2Qc (inject_Z (Z.of_nat 0))) with 0%Qc.
    change (Q2Qc (inject_Z 0)) with 0%Qc. ring.
Qed.

Lemma linspace0_last stop num :
  (2 <= num)%nat -> linspace0 stop num (num - 1) = of_Z stop.
Proof.
  intros Hn. unfold linspace0. destruct (Nat.eqb_spec num 1) as [-> | Hnum]; [lia|].
  assert (Hd : (Z.of_nat num - 1 <> 0)%Z) by lia.
  unfold of_Z, fin, fdiv. rewrite (Qeq_bool_inject_nonzero _ Hd).
  cbn [fmul]. f_equal.
  replace (Z.of_nat (num - 1)) with (Z.of_nat num - 1)%Z by lia.
  field. now apply Q2Qc_inject_nonzero.
Qed.

(** A pixel of a grid whose int64 pixels are exact is stored as it is. *)
Lemma exact_setitem array :
  exact_ints array ->
  forall i j, (i < fst (shape array))%nat -> (j < snd (shape array))%nat ->
  setitem (dt array) (item array i j) = Ok (item array i j).
Proof.
  intros Hex i j Hi Hj. destruct (dt array) eqn:Ed; [|reflexivity].
  destruct (Hex Ed i j Hi Hj) as (z & -> & Hz).
  apply setitem_of_Z. unfold int64_min, int64_max. lia.
Qed.

Lemma exact_ints_within array :
  exact_ints array -> dt array = int64 -> within_grid (2 ^ 53) array.
Proof.
  intros Hex Hd i j Hi Hj. apply int_within_within. now apply Hex.
Qed.

(** X10.  Bilinear resampling of a finite-valued grid to its own shape
    gives the grid back: every weight falls on a node.  The pixels of an
    int64 grid are taken of magnitude at most [2 ^ 53], since each goes
    through binary64. *)
Theorem _resample_bilinear_same_shape array :
  finite_grid array -> exact_ints array ->
  exists r, _resample_bilinear array (Z.of_nat (fst (shape array)))
                                     (Z.of_nat (snd (shape array))) = Ok r /\
    shape r = shape array /\ dt r = dt array /\
    forall i j, (i < fst (shape array))%nat -> (j < snd (shape array))%nat ->
      item r i j = item array i j.
Proof.
  intros Hfin Hex. unfold _resample_bilinear.
  pose proof (exact_setitem array Hex) as Hset.
  destruct (shape array) as [h w] eqn:Es. cbn [fst snd] in *.
  replace ((Z.of_nat h <? 0)%Z || (Z.of_nat w <? 0)%Z) with false.
  2:{ symmetry. apply orb_false_iff. split; apply Z.ltb_ge; lia. }
  rewrite !Nat2Z.id.
  assert (Hpix : forall i j, (i < h)%nat -> (j < w)%nat ->
            bilinear_pixel array h w (linspace0 (Z.of_nat h - 1) h i)
                           (linspace0 (Z.of_nat w - 1) w j) = Ok (item array i j)).
  { intros i j Hi Hj. rewrite !linspace0_same by assumption.
    now apply bilinear_pixel_at_node. }
  destruct (fill_ok (dt array) h w
              (fun i j => bilinear_pixel array h w (linspace0 (Z.of_nat h - 1) h i)
                                         (linspace0 (Z.of_nat w - 1) w j)))
    as (r & Er & Dr & Sr & Hr).
  { intros i j Hi Hj. rewrite Hpix by assumption. eauto. }
  exists r. repeat split; try assumption.
  intros i j Hi Hj. rewrite (Hr i j _ Hi Hj (Hpix i j Hi Hj)).
  symmetry. apply setitem_cast. now apply Hset.
Qed.

Lemma _resample_bilinear_same_shape_witness :
  exists r, _resample_bilinear (Grids.row float64_t [fin 5; fin (7 # 2); fin 9]) 1 3 = Ok r /\
            item r 0 1 = fin (7 # 2).
Proof.
  destruct (_resample_bilinear_same_shape (Grids.row float64_t [fin 5; fin (7 # 2); fin 9]))
    as (r & Er & _ & _ & H).
  - intros i j Hi Hj. cbn in Hi, Hj. cbn [Grids.row item].
    destruct j as [| [| [| j]]]; cbn; eauto. lia.
  - intros Hd. discriminate Hd.
  - exists r. split; [exact Er|]. apply (H 0%nat 1%nat); cbn; lia.
Defined.

(** X11.  Whatever the target size (at least 2 by 2), bilinear resampling
    of a finite-valued grid keeps its four corner pixels.  The pixels of an
    int64 grid are taken of magnitude at most [2 ^ 53]. *)
Theorem _resample_bilinear_corners array (nh nw : nat) :
  finite_grid array -> exact_ints array ->
  (0 < fst (shape array))%nat -> (0 < snd (shape array))%nat ->
  (2 <= nh)%nat -> (2 <= nw)%nat ->
  exists r, _resample_bilinear array (Z.of_nat nh) (Z.of_nat nw) = Ok r /\
    let h := fst (shape array) in
    let w := snd (shape array) in
    item r 0 0 = item array 0 0 /\
    item r 0 (nw - 1) = item array 0 (w - 1) /\
    item r (nh - 1) 0 = item array (h - 1) 0 /\
    item r (nh - 1) (nw - 1) = item array (h - 1) (w - 1).
Proof.
  intros Hfin Hex Hh Hw Hnh Hnw.
  destruct (_resample_bilinear_ok array (Z.of_nat nh) (Z.of_nat nw))
    as (r & Er & _); try lia.
  { now apply exact_ints_within. }
  exists r. split; [exact Er|].
  pose proof (exact_setitem array Hex) as Hset.
  unfold _resample_bilinear in Er.
  destruct (shape array) as [h w] eqn:Es. cbn [fst snd] in *.
  replace ((Z.of_nat nh <? 0)%Z || (Z.of_nat nw <? 0)%Z) with false in Er.
  2:{ symmetry. apply orb_false_iff. split; apply Z.ltb_ge; lia. }
  rewrite !Nat2Z.id in Er. unfold fill in Er.
  destruct (first_error _ _); [discriminate Er|]. inversion Er; subst r. cbn [item].
  rewrite !linspace0_first by lia. rewrite !linspace0_last by lia.
  replace (Z.of_nat h - 1)%Z with (Z.of_nat (h - 1)) by lia.
  replace (Z.of_nat w - 1)%Z with (Z.of_nat (w - 1)) by lia.
  change (of_Z 0) with (of_Z (Z.of_nat 0)).
  rewrite !bilinear_pixel_at_node by (assumption || lia).
  cbn [bind]. rewrite !Hset by lia.
  repeat split.
Qed.

(** A 2 x 2 grid stretched to 5 x 7. *)
Lemma _resample_bilinear_corners_witness :
  exists r,
    _resample_bilinear
      (mk_ndarray float64_t (2, 2)%nat
         (fun i j => of_Z (Z.of_nat (10 * i + j)))) 5 7 = Ok r /\
    item r 4 6 = of_Z 11.
Proof.
  destruct (_resample_bilinear_corners
              (mk_ndarray float64_t (2, 2)%nat
                 (fun i j => of_Z (Z.of_nat (10 * i + j)))) 5 7)
    as (r & Er & _ & _ & _ & H); cbn [shape fst snd]; try lia.
  - intros i j _ _. cbn [item]. eauto.
  - intros Hd. discriminate Hd.
  - exists r. split; [exact Er|]. exact H.
Defined.

(** ** Integer scale factors *)

Lemma of_Z_div k t :
  t <> 0%Z -> fdiv (of_Z (k * t)) (of_Z t) = of_Z k.
Proof.
  intros Ht. unfold of_Z, fin, fdiv. rewrite (Qeq_bool_inject_nonzero _ Ht).
  f_equal. apply Qc_is_canon. unfold Qcdiv, Qcmult, Qcinv. cbn [this Q2Qc].
  rewrite !Qred_correct, inject_Z_mult. field.
  intros H. unfold Qeq in H. cbn in H. lia.
Qed.

Lemma of_Z_mul a b : fmul (of_Z a) (of_Z b) = of_Z (a * b).
Proof.
  unfold of_Z, fin. cbn [fmul]. f_equal. apply Qc_is_canon.
  unfold Qcmult. cbn [this Q2Qc]. rewrite !Qred_correct, inject_Z_mult. reflexivity.
Qed.

Lemma feqb_of_Z a b : feqb (of_Z a) (of_Z b) = (a =? b)%Z.
Proof.
  unfold of_Z, fin, feqb. destruct (Z.eqb_spec a b) as [-> | Hne].
  - apply Qeq_bool_refl.
  - apply not_true_is_false. intros H. apply Qeq_bool_eq in H.
    rewrite !this_of_Z in H. unfold Qeq in H. cbn in H. lia.
Qed.

(** X12.  Upsampling by an integer factor with method ['nearest']: when the
    source resolution is [k] times the (integer) target resolution, the
    result has [k] times the rows and columns, and pixel [(i, j)] is the
    source pixel [(i / k, j / k)]: every source pixel becomes a [k] by [k]
    block. *)
Theorem resample_array_nearest_integer_factor array (k : nat) (t : Z) :
  (0 < fst (shape array))%nat -> (0 < snd (shape array))%nat ->
  (Z.of_nat (fst (shape array)) <= int64_max)%Z ->
  (Z.of_nat (snd (shape array)) <= int64_max)%Z ->
  (1 <= k)%nat -> (0 < t)%Z ->
  exists r,
    resample_array array (of_Z (Z.of_nat k * t)) (of_Z t) "nearest" = Ok r /\
    shape r = (fst (shape array) * k, snd (shape array) * k)%nat /\
    forall i j, (i < fst (shape array) * k)%nat -> (j < snd (shape array) * k)%nat ->
      item r i j = item array (i / k) (j / k).
Proof.
  intros Hh Hw Bh Bw Hk Ht. unfold resample_array. rewrite feqb_of_Z.
  destruct (Z.eqb_spec (Z.of_nat k * t) t) as [E | E].
  - assert (k = 1%nat) by nia. subst k. exists array. split; [reflexivity|].
    split; [rewrite !Nat.mul_1_r; now destruct (shape array)|].
    intros i j _ _. now rewrite !Nat.div_1_r.
  - unfold py_truediv. change fzero with (of_Z 0). rewrite feqb_of_Z.
    destruct (Z.eqb_spec t 0); [lia|]. cbn [bind].
    rewrite of_Z_div by lia. rewrite !of_Z_mul, !py_int_of_Z. cbn [bind String.eqb].
    rewrite <- !Nat2Z.inj_mul.
    destruct (_resample_nearest_ok array (fst (shape array) * k) (snd (shape array) * k))
      as (r & Er & Sr & Hr); try assumption; try nia.
    exists r. split; [exact Er|]. split; [exact Sr|].
    intros i j Hi Hj. rewrite (Hr i j Hi Hj).
    rewrite !nearest_index_div by (assumption || lia).
    rewrite !Nat2Z.inj_mul.
    rewrite (Z.mul_comm (Z.of_nat (fst (shape array))) (Z.of_nat k)).
    rewrite (Z.mul_comm (Z.of_nat (snd (shape array))) (Z.of_nat k)).
    rewrite !Z.div_mul_cancel_r by lia.
    rewrite <- !Nat2Z.inj_div, !Nat2Z.id. reflexivity.
Qed.

(** Landsat (30 m) brought to the Sentinel grid (10 m). *)
Lemma resample_array_nearest_integer_factor_witness :
  exists r,
    resample_array (Grids.row int64 [of_Z 5; of_Z 7]) (of_Z 30) (of_Z 10) "nearest" = Ok r /\
    shape r = (3, 6)%nat /\ item r 2 5 = of_Z 7.
Proof.
  destruct (resample_array_nearest_integer_factor
              (Grids.row int64 [of_Z 5; of_Z 7]) 3 10) as (r & Er & Sr & Hr);
    cbn [Grids.row shape fst snd length]; try lia; try (unfold int64_max; lia).
  exists r. split; [exact Er|]. split; [exact Sr|].
  apply (Hr 2%nat 5%nat); cbn; lia.
Defined.

(** ** Edge behaviour *)

(** X13.  [resample_array] looks at the method only after the resolutions:
    with equal resolutions it returns its input for any method string;
    with a zero target resolution it raises [ZeroDivisionError]; with two
    different finite resolutions whose quotient is at most [2 ^ 53] in
    magnitude (a quotient that overflows binary64 makes [int()] raise
    first) an unknown method raises [ValueError]. *)
Theorem resample_array_edges array :
  (forall source_resolution target_resolution method,
     feqb source_resolution target_resolution = true ->
     resample_array array source_resolution target_resolution method = Ok array) /\
  (forall source_resolution method,
     feqb source_resolution fzero = false ->
     resample_array array source_resolution fzero method = Raise ZeroDivisionError) /\
  (forall a b method,
     feqb (Finite a) (Finite b) = false -> feqb (Finite b) fzero = false ->
     (Qabs a <= inject_Z (2 ^ 53) * Qabs b)%Q ->
     String.eqb method "nearest" = false ->
     String.eqb method "bilinear" = false ->
     String.eqb method "bicubic" = false ->
     resample_array array (Finite a) (Finite b) method
     = Raise (ValueError "Unknown resampling method")).
Proof.
  split; [|split].
  - intros src tgt method E. unfold resample_array. now rewrite E.
  - intros src method E. unfold resample_array. rewrite E. reflexivity.
  - intros a b method E1 E2 _ M1 M2 M3. unfold resample_array, py_truediv.
    rewrite E1, E2. cbn [bind]. unfold fdiv.
    change (feqb (Finite b) fzero) with (Qeq_bool b 0%Q) in E2. rewrite E2.
    unfold of_Z, fin. cbn [fmul py_int bind]. now rewrite M1, M2, M3.
Qed.

Lemma resample_array_edges_witness :
  resample_array (Grids.full int64 2 2 (of_Z 1)) (of_Z 30) (of_Z 30) "lanczos"
    = Ok (Grids.full int64 2 2 (of_Z 1)) /\
  resample_array (Grids.full int64 2 2 (of_Z 1)) (of_Z 30) (of_Z 10) "lanczos"
    = Raise (ValueError "Unknown resampling method").
Proof.
  destruct (resample_array_edges (Grids.full int64 2 2 (of_Z 1))) as (H1 & _ & H3).
  split.
  - apply H1. reflexivity.
  - apply H3; try reflexivity. vm_compute. discriminate.
Defined.

Lemma pixels_head h w : (0 < h)%nat -> (0 < w)%nat ->
  exists ps, pixels h w = (0%nat, 0%nat) :: ps.
Proof.
  intros Hh Hw. destruct h as [| h]; [lia|]. destruct w as [| w]; [lia|].
  unfold pixels. cbn. eauto.
Qed.

(** X14.  Sizes outside the ordinary.  [_resample_bilinear] raises
    [ValueError] on a negative size and [IndexError] on an empty source
    with a positive target, while [_resample_nearest] returns an empty grid
    on non-positive sizes. *)
Theorem resamplers_on_degenerate_sizes array new_h new_w :
  (((new_h < 0)%Z \/ (new_w < 0)%Z) ->
   exists msg, _resample_bilinear array new_h new_w = Raise (ValueError msg)) /\
  ((fst (shape array) = 0%nat \/ snd (shape array) = 0%nat) ->
   (0 < new_h)%Z -> (0 < new_w)%Z ->
   exists msg, _resample_bilinear array new_h new_w = Raise (IndexError msg)) /\
  ((new_h <= 0)%Z -> (new_w <= 0)%Z ->
   exists r, _resample_nearest array new_h new_w = Ok r /\ shape r = (0, 0)%nat).
Proof.
  split; [|split].
  - intros H. unfold _resample_bilinear. destruct (shape array) as [h w].
    replace ((new_h <? 0)%Z || (new_w <? 0)%Z) with true; [eauto|].
    symmetry. apply orb_true_iff. destruct H; [left | right]; apply Z.ltb_lt; lia.
  - intros He Hh Hw. unfold _resample_bilinear.
    destruct (shape array) as [h w] eqn:Es. cbn [fst snd] in He.
    replace ((new_h <? 0)%Z || (new_w <? 0)%Z) with false.
    2:{ symmetry. apply orb_false_iff. split; apply Z.ltb_ge; lia. }
    unfold fill.
    destruct (pixels_head (Z.to_nat new_h) (Z.to_nat new_w)) as [ps ->]; try lia.
    cbn [first_error]. rewrite !linspace0_first by lia.
    unfold bilinear_pixel. rewrite !py_int_of_Z. cbn [bind].
    unfold getitem. rewrite Es. cbn [fst snd].
    destruct He as [-> | ->].
    + cbn. eauto.
    + destruct h as [| h]; cbn; eauto.
  - intros Hh Hw. unfold _resample_nearest, take_ix.
    destruct (shape array) as [h w].
    replace (Z.to_nat new_h) with 0%nat by lia.
    replace (Z.to_nat new_w) with 0%nat by lia.
    cbn. eauto.
Qed.

Lemma resamplers_on_degenerate_sizes_witness :
  (exists msg, _resample_bilinear (Grids.full int64 2 2 (of_Z 1)) (- 1) 4
               = Raise (ValueError msg)) /\
  (exists msg, _resample_bilinear (Grids.full int64 0 2 (of_Z 1)) 3 3
               = Raise (IndexError msg)) /\
  (exists r, _resample_nearest (Grids.full int64 2 2 (of_Z 1)) (- 1) 0 = Ok r /\
             shape r = (0, 0)%nat).
Proof.
  split; [|split].
  - apply (resamplers_on_degenerate_sizes (Grids.full int64 2 2 (of_Z 1)) (- 1) 4).
    left. lia.
  - apply (resamplers_on_degenerate_sizes (Grids.full int64 0 2 (of_Z 1)) 3 3);
      [left; reflexivity | lia | lia].
  - apply (resamplers_on_degenerate_sizes (Grids.full int64 2 2 (of_Z 1)) (- 1) 0); lia.
Defined.

End ResampleExtra.

(* ===================================================================== *)
(** * Further properties of the fusion service                             *)
(* ===================================================================== *)

Module GeeFusionExtra.
Import Numpy GeeFusion Notions ArrayFacts.




End GeeFusionExtra.

(* ===================================================================== *)
(** * Further properties of the geographic window                          *)
(* ===================================================================== *)

Module GeoWindowExtra.
Import GeoWindow GeoWindowSpec.
Local Open Scope R_scope.




(** X17.  The scale computed at the head of [fetch_as_array] is never below
    the scale requested, and at that scale the pixel estimate of the window
    is at most 512 in each axis whenever it was above; otherwise the scale
    is kept. *)
Theorem fetch_scale_fits bounds scale :
  0 < scale ->
  exists s w_pixels h_pixels,
    fetch_scale bounds scale = Ok s /\
    pixel_estimate bounds s = Ok (w_pixels, h_pixels) /\
    scale <= s /\
    (s = scale \/ (w_pixels <= 512 /\ h_pixels <= 512)).
Proof.
  intros Hs. unfold fetch_scale, pixel_estimate.
  rewrite !truediv_ok by rlra. cbn [bind fst snd].
  set (width_m := (east bounds - west bounds)
                  * (111000 * cos (radians ((south bounds + north bounds) / 2)))).
  set (height_m := (north bounds - south bounds) * 111000).
  set (s' := Rmax (Rmax (Rmax (width_m / 512) (height_m / 512)) scale) scale).
  assert (H1 : scale <= s') by (unfold s'; apply Rmax_r).
  assert (H2 : width_m / 512 <= s').
  { unfold s'. eapply Rle_trans; [|apply Rmax_l].
    eapply Rle_trans; [|apply Rmax_l]. apply Rmax_l. }
  assert (H3 : height_m / 512 <= s').
  { unfold s'. eapply Rle_trans; [|apply Rmax_l].
    eapply Rle_trans; [|apply Rmax_l]. apply Rmax_r. }
  assert (Hfit : width_m / s' <= 512 /\ height_m / s' <= 512).
  { assert (0 < s') by rlra. split.
    - apply Rmult_le_reg_r with s'; [assumption|].
      replace (width_m / s' * s') with width_m by (field; rlra). rlra.
    - apply Rmult_le_reg_r with s'; [assumption|].
      replace (height_m / s' * s') with height_m by (field; rlra). rlra. }
  destruct (Rlt_dec 512 (width_m / scale)).
  - exists s', (width_m / s'), (height_m / s').
    rewrite truediv_ok by rlra. auto.
  - destruct (Rlt_dec 512 (height_m / scale)).
    + exists s', (width_m / s'), (height_m / s').
      rewrite truediv_ok by rlra. auto.
    + exists scale, (width_m / scale), (height_m / scale).
      rewrite truediv_ok by rlra. repeat split; auto. rlra.
Qed.

Lemma fetch_scale_fits_witness :
  exists s w_pixels h_pixels,
    fetch_scale (0, 0, 1, 1) 10 = Ok s /\
    pixel_estimate (0, 0, 1, 1) s = Ok (w_pixels, h_pixels) /\
    10 <= s.
Proof.
  destruct (fetch_scale_fits (0, 0, 1, 1) 10) as (s & w & h & E1 & E2 & Hs & _);
    [rlra|].
  exists s, w, h. auto.
Defined.



End GeoWindowExtra.

(* ===================================================================== *)
(** * Further properties of the cache sweep                                *)
(* ===================================================================== *)

Module CacheExtra.
Import Cache CacheSpec.
Local Open Scope Z_scope.

Section Sweeps.

Variable fromisoformat : string -> option datetime.




(** What the second loop leaves, for the keys selected by the first. *)
Lemma cleanup_sweep self cutoff_time :
  let ks := keys_to_remove fromisoformat (metadata self) cutoff_time in
  let s := fold_left remove_item ks (mk_sweep (files self) (metadata self) 0 0) in
  (forall k, sw_metadata s !! k = if decide (k ∈ ks) then None else metadata self !! k) /\
  sw_items_removed s = Z.of_nat (length ks) /\
  Z.of_nat (size (sw_metadata s)) + Z.of_nat (length ks)
    = Z.of_nat (size (metadata self)) /\
  disk_usage (sw_files s) + sw_space_freed s = disk_usage (files self).
Proof.
  intros ks s.
  destruct (sweep_spec ks (mk_sweep (files self) (metadata self) 0 0)
              (keys_to_remove_NoDup _ _ _)) as (_ & Hm & Hn & Hsz & Hu).
  { intros k Hk. apply keys_to_remove_elem in Hk as (m & Hm & _).
    cbn [sw_metadata]. eauto. }
  cbn [sw_files sw_metadata sw_items_removed sw_space_freed] in *.
  subst s. split; [exact Hm|]. split; [lia|]. split; [exact Hsz|]. lia.
Qed.

(** A call that returns went through the two loops with its cutoff. *)
Lemma cleanup_returned self now max_age_days stats :
  (cleanup_old_cache fromisoformat self now max_age_days).2 = Ok stats ->
  cleanup_old_cache fromisoformat self now max_age_days
  = let r := cleanup_from fromisoformat self
               (now - max_age_days * microseconds_per_day) in (r.1, Ok r.2).
Proof.
  unfold cleanup_old_cache. destruct (cutoff now max_age_days) as [c | e] eqn:E.
  - intros _. now rewrite (cutoff_inv _ _ _ E).
  - discriminate.
Qed.

(** A call that raises leaves the cache as it was. *)
Lemma cleanup_raised self now max_age_days e :
  (cleanup_old_cache fromisoformat self now max_age_days).2 = Raise e ->
  (cleanup_old_cache fromisoformat self now max_age_days).1 = self.
Proof.
  unfold cleanup_old_cache. destruct (cutoff now max_age_days) as [c | e'].
  - discriminate.
  - reflexivity.
Qed.



(** X21.  If [metadata.json] agrees with the index in memory before a
    sweep, it agrees with it after: the file is rewritten whenever an item
    was removed. *)
Theorem cleanup_keeps_metadata_file_in_sync self now max_age_days :
  metadata_file self = metadata self ->
  let self' := (cleanup_old_cache fromisoformat self now max_age_days).1 in
  metadata_file self' = metadata self'.
Proof.
  intros Hsync self'.
  destruct ((cleanup_old_cache fromisoformat self now max_age_days).2)
    as [stats | e] eqn:E.
  2:{ unfold self'. now rewrite (cleanup_raised _ _ _ _ E). }
  destruct (cleanup_sweep self (now - max_age_days * microseconds_per_day))
    as (Hmd & Hn & _).
  unfold self'. rewrite (cleanup_returned _ _ _ _ E).
  unfold cleanup_from. cbn [fst metadata metadata_file].
  destruct (Z.ltb_spec 0 (sw_items_removed
              (fold_left remove_item
                 (keys_to_remove fromisoformat (metadata self)
                    (now - max_age_days * microseconds_per_day))
                 (mk_sweep (files self) (metadata self) 0 0)))) as [Hpos | Hz];
    [reflexivity|].
  rewrite Hn in Hz.
  destruct (keys_to_remove fromisoformat (metadata self)
              (now - max_age_days * microseconds_per_day)) as [| k ks];
    [cbn; exact Hsync | cbn [length] in Hz; lia].
Qed.

End Sweeps.



Lemma cleanup_keeps_metadata_file_in_sync_witness :
  let self' := (cleanup_old_cache Grids.parse_day Grids.two_entries
                  (50 * microseconds_per_day) 7).1 in
  metadata_file self' = metadata self'.
Proof.
  apply (cleanup_keeps_metadata_file_in_sync Grids.parse_day Grids.two_entries).
  reflexivity.
Defined.

End CacheExtra.

(* ===================================================================== *)
(** * Properties of the display normalisation                              *)
(* ===================================================================== *)

Module NormalizeExtra.
Import Numpy GeeFusion Notions ArrayFacts ResampleSpec ResampleExtra CompositorExtra.

Lemma all_finite_nan_free l : all_finite l -> nan_free l.
Proof.
  unfold all_finite, nan_free. rewrite !List.Forall_forall.
  intros H x Hx. destruct (H x Hx) as [q ->]. reflexivity.
Qed.

Lemma all_finite_perm l l' : Permutation l l' -> all_finite l -> all_finite l'.
Proof. unfold all_finite. intros H. now rewrite H. Qed.

Lemma lerp_finite a b t : exists r, lerp (Finite a) (Finite b) (Finite t) = Finite r.
Proof.
  unfold lerp. destruct (fleb _ _); cbn; eauto.
Qed.

Lemma sort_nth_finite l i :
  all_finite l -> (i < length l)%nat -> exists q, nth i (sort l) NaN = Finite q.
Proof.
  intros Hf Hi.
  assert (Hs : all_finite (sort l)).
  { apply (all_finite_perm l); [symmetry; apply sort_perm | exact Hf]. }
  unfold all_finite in Hs. rewrite List.Forall_forall in Hs.
  apply Hs, nth_In. now rewrite (Permutation_length (sort_perm l)).
Qed.

(** A percentile of finite values is finite. *)
Lemma percentile1_finite a q :
  all_finite a -> a <> [] -> (0 <= q <= 100)%Z ->
  exists p, percentile1 a q = Ok (Finite p).
Proof.
  intros Hf Hne Hq. unfold percentile1.
  replace ((q <? 0)%Z || (100 <? q)%Z) with false.
  2:{ symmetry. apply orb_false_iff. split; apply Z.ltb_ge; lia. }
  assert (En : existsb isnan a = false).
  { apply not_true_is_false. intros H. apply existsb_exists in H as (x & Hx & Hnan).
    unfold all_finite in Hf. rewrite List.Forall_forall in Hf.
    destruct (Hf x Hx) as [p ->]. discriminate. }
  rewrite En.
  assert (Hlen : (0 < length a)%nat) by (destruct a; [contradiction | cbn; lia]).
  set (n := Z.of_nat (length a)).
  set (virtual := (inject_Z (n - 1) * (inject_Z q / 100))%Q).
  assert (Hv0 : (0 <= virtual)%Q).
  { unfold virtual. apply Qmult_le_0_compat.
    - unfold Qle. cbn. unfold n. lia.
    - apply Qle_shift_div_l; [reflexivity|]. unfold Qle. cbn. lia. }
  destruct (Qle_bool (inject_Z (n - 1)) virtual) eqn:E.
  - destruct (sort_nth_finite a (length a - 1) Hf) as [l ->]; [lia|].
    destruct (lerp_finite l l (Q2Qc (virtual + 1))) as [r Hr].
    exists r. unfold fin. now rewrite Hr.
  - assert (Hlt : (virtual < inject_Z (n - 1))%Q).
    { apply Qnot_le_lt. intros H. apply Qle_bool_iff in H. congruence. }
    assert (Hf0 : (0 <= Qfloor virtual)%Z).
    { rewrite <- (Qfloor_Z 0). now apply Qfloor_resp_le. }
    assert (Hf1 : (Qfloor virtual < n - 1)%Z).
    { apply (Qle_lt_trans _ _ _ (Qfloor_le virtual)) in Hlt.
      now rewrite <- Zlt_Qlt in Hlt. }
    destruct (sort_nth_finite a (Z.to_nat (Qfloor virtual)) Hf) as [x ->];
      [unfold n in Hf1; lia|].
    destruct (sort_nth_finite a (Z.to_nat (Qfloor virtual + 1)) Hf) as [y ->];
      [unfold n in Hf1; lia|].
    destruct (lerp_finite x y (Q2Qc (virtual - inject_Z (Qfloor virtual)))) as [r Hr].
    exists r. unfold fin. now rewrite Hr.
Qed.

(** Clipping a finite value between finite bounds. *)
Lemma clip1_finite (lo hi q : Qc) :
  exists c, clip1 (Finite lo) (Finite hi) (Finite q) = Finite c /\
            (this c == Qmin hi (Qmax q lo))%Q.
Proof.
  unfold clip1, maximum, minimum, fltb. unfold Qccompare.
  pose proof (Q.max_spec q lo) as Hm. set (m := Qmax q lo) in *.
  pose proof (Q.min_spec hi m) as Hn. set (n := Qmin hi m) in *.
  clearbody n m.
  repeat match goal with
         | |- context [Qcompare ?a ?b] => destruct (Qcompare_spec a b)
         end;
    eexists; (split; [reflexivity|]); qlra.
Qed.

(** The value stored for one finite pixel, before the cast. *)
Lemma normalized_pixel (lo hi q : Qc) :
  exists r,
    fmul (if fgtb (Finite hi) (Finite lo)
          then fdiv (fsub (clip1 (Finite lo) (Finite hi) (Finite q)) (Finite lo))
                    (fsub (Finite hi) (Finite lo))
          else fzero) (of_Z 255) = Finite r /\
    (this r == stretch lo hi q)%Q.
Proof.
  unfold fgtb, fltb, stretch. unfold Qccompare.
  destruct (Qcompare_spec lo hi) as [H | H | H].
  - destruct (Qlt_le_dec lo hi) as [Hlt | _]; [exfalso; qlra|].
    eexists. split; [reflexivity|]. cbn. rewrite !Qred_correct. qlra.
  - destruct (Qlt_le_dec lo hi) as [_ | Hle]; [|exfalso; qlra].
    destruct (clip1_finite lo hi q) as (c & -> & Hc).
    change (fsub (Finite c) (Finite lo)) with (Finite (c + - lo)).
    change (fsub (Finite hi) (Finite lo)) with (Finite (hi + - lo)).
    unfold fdiv.
    assert (Hd : Qeq_bool (hi + - lo)%Qc 0 = false).
    { apply not_true_is_false. intros E. apply Qeq_bool_eq in E.
      unfold Qcplus, Qcopp in E. rewrite !this_Q2Qc in E. qlra. }
    rewrite Hd. unfold of_Z, fin. cbn [fmul]. eexists. split; [reflexivity|].
    unfold Qcmult, Qcdiv, Qcinv, Qcplus, Qcopp, Qcminus.
    repeat setoid_rewrite this_Q2Qc.
    rewrite <- Hc. unfold Qdiv, Qminus. cbn [inject_Z]. reflexivity.
  - destruct (Qlt_le_dec lo hi) as [Hlt | _]; [exfalso; qlra|].
    eexists. split; [reflexivity|]. cbn. rewrite !Qred_correct. qlra.
Qed.

Lemma stretch_range lo hi x : (0 <= stretch lo hi x <= 255)%Q.
Proof.
  unfold stretch. destruct (Qlt_le_dec lo hi) as [H | H]; [|split; qlra].
  assert (Hlo : (lo <= Qmin hi (Qmax x lo))%Q).
  { apply Q.min_glb; [now apply Qlt_le_weak | apply Q.le_max_r]. }
  assert (Hhi : (Qmin hi (Qmax x lo) <= hi)%Q) by apply Q.le_min_l.
  set (c := Qmin hi (Qmax x lo)) in *.
  assert (Hq : (0 <= (c - lo) / (hi - lo) <= 1)%Q).
  { split.
    - apply Qle_shift_div_l; qlra.
    - apply Qle_shift_div_r; qlra. }
  split; qlra.
Qed.

Lemma stretch_mono lo hi x y : (x <= y)%Q -> (stretch lo hi x <= stretch lo hi y)%Q.
Proof.
  intros Hxy. unfold stretch. destruct (Qlt_le_dec lo hi) as [H | H]; [|qlra].
  assert (Hc : (Qmin hi (Qmax x lo) <= Qmin hi (Qmax y lo))%Q).
  { apply Q.min_le_compat_l. now apply Q.max_le_compat_r. }
  apply Qmult_le_compat_r; [|qlra].
  unfold Qdiv. apply Qmult_le_compat_r; [qlra|].
  apply Qlt_le_weak, Qinv_lt_0_compat. qlra.
Qed.

Lemma to_uint8_stretch r lo hi x :
  (this r == stretch lo hi x)%Q -> to_uint8 (Finite r) = Qfloor (stretch lo hi x).
Proof.
  intros H. unfold to_uint8.
  pose proof (stretch_range lo hi x) as Hr.
  assert (Hr' : (0 <= this r <= inject_Z 255)%Q) by (rewrite H; exact Hr).
  pose proof (Qtrunc_range _ _ Hr') as Ht.
  rewrite Z.mod_small by lia.
  rewrite Qtrunc_floor by apply Hr'. now rewrite H.
Qed.

Lemma fleb_Qle (a b : Qc) : fleb (Finite a) (Finite b) = true -> (a <= b)%Q.
Proof.
  unfold fleb, fltb, feqb, Qccompare.
  destruct (Qcompare_spec a b) as [H | H | H]; cbn [orb].
  - intros _. rewrite H. apply Qle_refl.
  - intros _. now apply Qlt_le_weak.
  - intros E. apply Qeq_bool_eq in E. rewrite E. apply Qle_refl.
Qed.

Lemma fgtb_zero_Qlt (q : Qc) : fgtb (Finite q) fzero = false -> (q <= 0)%Q.
Proof.
  unfold fgtb, fltb, fzero, Qccompare.
  destruct (Qcompare_spec 0%Qc q) as [H | H | H]; try discriminate; intros _.
  - rewrite <- H. apply Qle_refl.
  - now apply Qlt_le_weak.
Qed.

Lemma ravel_finite band : finite_grid band -> all_finite (ravel band).
Proof.
  intros Hf. unfold all_finite, ravel. rewrite List.Forall_forall.
  intros x Hx. apply in_map_iff in Hx as ([i j] & <- & Hin).
  apply pixels_in in Hin as [Hi Hj]. now apply Hf.
Qed.

Lemma positives_finite band : finite_grid band -> all_finite (positives band).
Proof.
  intros Hf. pose proof (ravel_finite band Hf) as Hr.
  unfold all_finite, positives in *. rewrite List.Forall_forall in *.
  intros x Hx. apply List.filter_In in Hx as [Hx _]. now apply Hr.
Qed.

Lemma positives_nonempty band :
  existsb (fun v => fgtb v fzero) (ravel band) = true -> positives band <> [].
Proof.
  intros H E. apply existsb_exists in H as (x & Hx & Hp).
  assert (Hin : In x (positives band)).
  { unfold positives. apply List.filter_In. now split. }
  rewrite E in Hin. exact Hin.
Qed.

Lemma ravel_in band i j :
  (i < fst (shape band))%nat -> (j < snd (shape band))%nat ->
  In (item band i j) (ravel band).
Proof.
  intros Hi Hj. unfold ravel. apply in_map_iff. exists (i, j).
  split; [reflexivity|]. now apply pixels_in.
Qed.

(** Every finite pixel of a finite-valued band is stored as the floor of
    its stretch between two finite bounds. *)
Lemma _normalize_band_pixels band (ql qh : Z) :
  finite_grid band -> (0 <= ql <= 100)%Z -> (0 <= qh <= 100)%Z ->
  exists r (lo hi : Qc),
    _normalize_band band (ql, qh) = Ok r /\
    u8shape r = shape band /\
    forall i j q, item band i j = Finite q ->
                  u8item r i j = Qfloor (stretch lo hi q).
Proof.
  intros Hf Hl Hh. unfold _normalize_band. cbn [fst snd].
  assert (Hp : exists lo hi : Qc,
    (if existsb (fun v => fgtb v fzero) (ravel band)
     then
       if (ql <? 0)%Z || (100 <? ql)%Z || (qh <? 0)%Z || (100 <? qh)%Z
       then Raise (ValueError "Percentiles must be in the range [0, 100]")
       else
         do lo <- percentile1 (positives band) ql;
         do hi <- percentile1 (positives band) qh;
         Ok (lo, hi)
     else Ok (fzero, fone)) = Ok (Finite lo, Finite hi)).
  { destruct (existsb _ _) eqn:E.
    - replace ((ql <? 0)%Z || (100 <? ql)%Z || (qh <? 0)%Z || (100 <? qh)%Z)
        with false.
      2:{ symmetry. rewrite !orb_false_iff. repeat split; apply Z.ltb_ge; lia. }
      destruct (percentile1_finite (positives band) ql) as [lo ->];
        [now apply positives_finite | now apply positives_nonempty | lia |].
      destruct (percentile1_finite (positives band) qh) as [hi ->];
        [now apply positives_finite | now apply positives_nonempty | lia |].
      exists lo, hi. reflexivity.
    - exists 0%Qc, 1%Qc. reflexivity. }
  destruct Hp as (lo & hi & ->). cbn [bind fst snd].
  eexists. exists lo, hi. split; [reflexivity|]. split; [reflexivity|].
  intros i j q Hq. cbn [u8item]. rewrite Hq.
  destruct (normalized_pixel lo hi q) as (r & -> & Hr).
  now apply to_uint8_stretch.
Qed.

(** X22.  A finite-valued band normalised with percentiles taken in
    [[0, 100]] comes back as a grid of the same shape whose pixels all lie
    in [[0, 255]] and keep the order of the source pixels: a brighter
    source pixel is never rendered darker. *)
Theorem _normalize_band_range_and_order band (ql qh : Z) :
  finite_grid band -> (0 <= ql <= 100)%Z -> (0 <= qh <= 100)%Z ->
  exists r,
    _normalize_band band (ql, qh) = Ok r /\
    u8shape r = shape band /\
    (forall i j, (i < fst (shape band))%nat -> (j < snd (shape band))%nat ->
                 (0 <= u8item r i j <= 255)%Z) /\
    (forall i j i' j',
        (i < fst (shape band))%nat -> (j < snd (shape band))%nat ->
        (i' < fst (shape band))%nat -> (j' < snd (shape band))%nat ->
        fleb (item band i j) (item band i' j') = true ->
        (u8item r i j <= u8item r i' j')%Z).
Proof.
  intros Hf Hl Hh.
  destruct (_normalize_band_pixels band ql qh Hf Hl Hh)
    as (r & lo & hi & Er & Es & Hpix).
  exists r. split; [exact Er|]. split; [exact Es|]. split.
  - intros i j Hi Hj. destruct (Hf i j Hi Hj) as [q Hq].
    rewrite (Hpix i j q Hq).
    pose proof (stretch_range lo hi q) as [H0 H1].
    apply Qfloor_resp_le in H0, H1.
    change 0%Q with (inject_Z 0) in H0. change 255%Q with (inject_Z 255) in H1.
    rewrite Qfloor_Z in H0, H1. lia.
  - intros i j i' j' Hi Hj Hi' Hj' Hle.
    destruct (Hf i j Hi Hj) as [q Hq]. destruct (Hf i' j' Hi' Hj') as [q' Hq'].
    rewrite (Hpix i j q Hq), (Hpix i' j' q' Hq').
    rewrite Hq, Hq' in Hle. apply fleb_Qle in Hle.
    apply Qfloor_resp_le. now apply stretch_mono.
Qed.

(** The row [0, 10, 20, 30, 40] with the default clip (2, 98). *)
Lemma _normalize_band_range_and_order_witness :
  let band := Grids.row float64_t [of_Z 0; of_Z 10; of_Z 20; of_Z 30; of_Z 40] in
  exists r,
    _normalize_band band (2, 98)%Z = Ok r /\
    u8shape r = shape band /\
    (forall i j, (i < fst (shape band))%nat -> (j < snd (shape band))%nat ->
                 (0 <= u8item r i j <= 255)%Z) /\
    (forall i j i' j',
        (i < fst (shape band))%nat -> (j < snd (shape band))%nat ->
        (i' < fst (shape band))%nat -> (j' < snd (shape band))%nat ->
        fleb (item band i j) (item band i' j') = true ->
        (u8item r i j <= u8item r i' j')%Z).
Proof.
  intros band. apply (_normalize_band_range_and_order band 2 98); [|lia|lia].
  intros i j Hi Hj. cbn in Hj |- *.
  do 5 (destruct j as [| j]; [eexists; reflexivity|]). lia.
Defined.

(** X23.  A band without any positive pixel (an all-zero or no-data tile)
    is rendered black wherever it is not NaN, and the percentile pair is
    not looked at: even an invalid pair raises nothing. *)
Theorem _normalize_band_without_positive_pixel band (percentile_clip : Z * Z) :
  (forall i j, (i < fst (shape band))%nat -> (j < snd (shape band))%nat ->
               fgtb (item band i j) fzero = false) ->
  exists r,
    _normalize_band band percentile_clip = Ok r /\
    u8shape r = shape band /\
    forall i j, (i < fst (shape band))%nat -> (j < snd (shape band))%nat ->
                isnan (item band i j) = false -> u8item r i j = 0%Z.
Proof.
  intros Hnp. unfold _normalize_band.
  assert (E : existsb (fun v => fgtb v fzero) (ravel band) = false).
  { apply not_true_is_false. intros H.
    apply existsb_exists in H as (x & Hx & Hp).
    unfold ravel in Hx. apply in_map_iff in Hx as ([i j] & <- & Hin).
    apply pixels_in in Hin as [Hi Hj]. cbn [fst snd] in Hp.
    rewrite (Hnp i j Hi Hj) in Hp. discriminate. }
  rewrite E. cbn [bind fst snd].
  eexists. split; [reflexivity|]. split; [reflexivity|].
  intros i j Hi Hj Hnan. cbn [u8item]. specialize (Hnp i j Hi Hj).
  destruct (item band i j) as [| [|] | q];
    [discriminate Hnan | reflexivity | discriminate Hnp |].
  apply fgtb_zero_Qlt in Hnp.
  destruct (normalized_pixel 0%Qc 1%Qc q) as (r & Er & Hr).
  unfold fzero, fone in Er |- *. rewrite Er.
  rewrite (to_uint8_stretch r 0%Qc 1%Qc q Hr).
  assert (Hz : (stretch 0%Qc 1%Qc q == inject_Z 0)%Q).
  { unfold stretch. destruct (Qlt_le_dec 0%Qc 1%Qc) as [_ | H]; [|reflexivity].
    rewrite (Q.max_r q 0%Qc) by exact Hnp.
    rewrite Q.min_r by (cbn; discriminate). reflexivity. }
  rewrite Hz. apply Qfloor_Z.
Qed.

(** An all-zero 2 x 3 tile with a percentile pair outside [[0, 100]]. *)
Lemma _normalize_band_without_positive_pixel_witness :
  let band := Grids.full int64 2 3 fzero in
  exists r,
    _normalize_band band (-5, 250)%Z = Ok r /\
    u8shape r = shape band /\
    forall i j, (i < fst (shape band))%nat -> (j < snd (shape band))%nat ->
                isnan (item band i j) = false -> u8item r i j = 0%Z.
Proof.
  intros band. apply (_normalize_band_without_positive_pixel band (-5, 250)%Z).
  intros i j _ _. reflexivity.
Defined.

End NormalizeExtra.
